(** * Plugin context of the IBM Cloud CLI SDK: a shallow embedding

    The development follows [plugin/plugin_context.go] and the metadata
    types of [plugin/plugin.go].  Go strings are byte strings and are
    modelled by [string] (a list of 8-bit [ascii]); Go's [int] is the
    64-bit two's complement integer, modelled by [Z] with the wrap-around
    written out.  The persisted configuration is shared mutable state and
    the authentication service is outside the program: the operations of
    the context are functions in a state monad over a world that holds the
    configuration, the environment, the answers of the service and the
    calls made to it.  The functions of Go's library that the code calls
    ([strings.Split], [strings.Join], [strings.TrimSpace], [strconv.Atoi],
    the verb [%d]) are modelled after the library's source. *)

From Stdlib Require Import ZArith Ascii String List Bool Lia.
From stdpp Require Import base option list strings gmap.

Local Open Scope Z_scope.

(** ** Machine integers *)

Module GoInt.

Definition maxUint64 : Z := 2 ^ 64 - 1.
Definition maxInt64 : Z := 2 ^ 63 - 1.
Definition minInt64 : Z := - 2 ^ 63.

(** Conversion to [uint64], [int64] and [byte]: the value modulo the width. *)
Definition uint64 (z : Z) : Z := z mod 2 ^ 64.
Definition int64 (z : Z) : Z := (z + 2 ^ 63) mod 2 ^ 64 - 2 ^ 63.
Definition byte (z : Z) : Z := z mod 256.

(** The numeric value of a byte of a string. *)
Definition byteZ (c : ascii) : Z := Z.of_N (N_of_ascii c).

End GoInt.
Import GoInt.

(** ** The functions of Go's [strings] package that the plugin code calls *)

Module Strings.

(** [len(s)] *)
Definition len (s : string) : nat := String.length s.

(** [s[i:]] *)
Fixpoint sliceFrom (i : nat) (s : string) : string :=
  match i, s with
  | O, _ => s
  | S i', String _ s' => sliceFrom i' s'
  | S _, EmptyString => EmptyString
  end.

(** [s[:i]] *)
Fixpoint sliceTo (i : nat) (s : string) : string :=
  match i, s with
  | O, _ => EmptyString
  | S i', String c s' => String c (sliceTo i' s')
  | S _, EmptyString => EmptyString
  end.

(** [strings.IndexByte(s, c)]: the index of the first [c] in [s];
    [None] stands for Go's [-1]. *)
Fixpoint IndexByte (s : string) (c : ascii) : option nat :=
  match s with
  | EmptyString => None
  | String a s' => if Ascii.eqb a c then Some O else S <$> IndexByte s' c
  end.

(** [strings.LastIndex(s, sep)] for a separator of one byte. *)
Fixpoint LastIndexByte (s : string) (c : ascii) : option nat :=
  match s with
  | EmptyString => None
  | String a s' =>
      match LastIndexByte s' c with
      | Some i => Some (S i)
      | None => if Ascii.eqb a c then Some O else None
      end
  end.

(** [strings.Count(s, sep)] for a separator of one byte. *)
Fixpoint Count (s : string) (c : ascii) : nat :=
  match s with
  | EmptyString => O
  | String a s' => if Ascii.eqb a c then S (Count s' c) else Count s' c
  end.

(** The loop of [genericSplit]: at most [n] cuts, each at the next
    occurrence of the separator; what is left is the last element. *)
Fixpoint genericSplit_loop (n : nat) (s : string) (c : ascii) : list string :=
  match n with
  | O => [s]
  | S n' =>
      match IndexByte s c with
      | None => [s]
      | Some m => sliceTo m s :: genericSplit_loop n' (sliceFrom (m + 1) s) c
      end
  end.

(** [strings.Split(s, sep)] for a separator of one byte (the plugin code
    only splits on ["."]): [n = Count(s, sep) + 1] elements. *)
Definition Split (s : string) (c : ascii) : list string :=
  genericSplit_loop (Count s c) s c.

(** [strings.Join(elems, sep)] *)
Definition Join (elems : list string) (sep : string) : string :=
  match elems with
  | [] => EmptyString
  | e :: rest => fold_left (fun b s => b +:+ sep +:+ s) rest e
  end.

(** The bytes of a string, given by their values. *)
Definition bytes (l : list Z) : string :=
  string_of_list_ascii ((fun z => ascii_of_N (Z.to_N z)) <$> l).

Definition reverse (s : string) : string :=
  string_of_list_ascii (rev (list_ascii_of_string s)).

(** The UTF-8 encodings of the code points for which [unicode.IsSpace]
    holds: tab, line feed, vertical tab, form feed, carriage return and
    space; U+0085 and U+00A0; U+1680, U+2000 to U+200A, U+2028, U+2029,
    U+202F, U+205F and U+3000.  The decoder of [unicode/utf8] accepts the
    shortest encoding of a code point only, so a string starts (ends) with
    a white space rune exactly when it starts (ends) with one of these. *)
Definition spaceEncodings : list string :=
  [bytes [9]; bytes [10]; bytes [11]; bytes [12]; bytes [13]; bytes [32];
   bytes [194; 133]; bytes [194; 160]; bytes [225; 154; 128]]
  ++ ((fun k => bytes [226; 128; 128 + Z.of_nat k]) <$> seq 0 11)
  ++ [bytes [226; 128; 168]; bytes [226; 128; 169]; bytes [226; 128; 175];
      bytes [226; 129; 159]; bytes [227; 128; 128]].

(** The width of the white space rune [s] starts with, if it does. *)
Definition leadingSpace (s : string) : option nat :=
  String.length <$> List.find (fun e => String.prefix e s) spaceEncodings.

(** The width of the white space rune [s] ends with, if it does. *)
Definition trailingSpace (s : string) : option nat :=
  String.length
    <$> List.find (fun e => String.prefix (reverse e) (reverse s)) spaceEncodings.

(** [strings.TrimLeftFunc(s, unicode.IsSpace)]: the loop over the
    leading runes; [fuel] bounds the number of runes. *)
Fixpoint TrimLeft_loop (fuel : nat) (s : string) : string :=
  match fuel with
  | O => s
  | S fuel' =>
      match leadingSpace s with
      | Some w => TrimLeft_loop fuel' (sliceFrom w s)
      | None => s
      end
  end.

(** [strings.TrimRightFunc(s, unicode.IsSpace)] *)
Fixpoint TrimRight_loop (fuel : nat) (s : string) : string :=
  match fuel with
  | O => s
  | S fuel' =>
      match trailingSpace s with
      | Some w => TrimRight_loop fuel' (sliceTo (len s - w) s)
      | None => s
      end
  end.

(** [strings.TrimSpace(s)]: [s] without leading and trailing white space. *)
Definition TrimSpace (s : string) : string :=
  let s := TrimLeft_loop (len s) s in
  TrimRight_loop (len s) s.

End Strings.

(** ** [strconv.Atoi] *)

Module Strconv.

Inductive NumError : Type := ErrSyntax | ErrRange.

Definition base : Z := 10.

(** The loop of [ParseUint(s, 10, 64)] over the bytes of [s], with the
    accumulator [n] a [uint64]. *)
Fixpoint ParseUint_loop (n : Z) (s : string) : Z * option NumError :=
  match s with
  | EmptyString => (n, None)
  | String c s' =>
      let b := byteZ c in
      let digit :=
        if (48 <=? b) && (b <=? 57) then Some (byte (b - 48))
        else if (97 <=? b) && (b <=? 122) then Some (byte (b - 97 + 10))
        else if (65 <=? b) && (b <=? 90) then Some (byte (b - 65 + 10))
        else None in
      match digit with
      | None => (0, Some ErrSyntax)
      | Some d =>
          if byte base <=? d then (0, Some ErrSyntax)
          else if maxUint64 / 10 + 1 <=? n then (maxUint64, Some ErrRange)
          else
            let n := uint64 (n * base) in
            let n1 := uint64 (n + d) in
            if (n1 <? n) || (maxUint64 <? n1) then (maxUint64, Some ErrRange)
            else ParseUint_loop n1 s'
      end
  end.

Definition ParseUint (s : string) : Z * option NumError :=
  match s with
  | EmptyString => (0, Some ErrSyntax)
  | _ => ParseUint_loop 0 s
  end.

(** [ParseInt(s, 10, 0)] with [IntSize = 64]. *)
Definition ParseInt (s : string) : Z * option NumError :=
  match s with
  | EmptyString => (0, Some ErrSyntax)
  | String c0 rest =>
      let neg := Ascii.eqb c0 "-" in
      let s1 := if Ascii.eqb c0 "+" || neg then rest else s in
      let '(un, err) := ParseUint s1 in
      match err with
      | Some ErrSyntax => (0, err)
      | _ =>
          let cutoff := 2 ^ 63 in
          if negb neg && (cutoff <=? un) then (cutoff - 1, Some ErrRange)
          else if neg && (cutoff <? un) then (- cutoff, Some ErrRange)
          else
            let n := int64 un in
            (if neg then int64 (- n) else n, None)
      end
  end.

(** The loop of the fast path of [Atoi]; [None] is the syntax error. *)
Fixpoint Atoi_loop (n : Z) (s : string) : option Z :=
  match s with
  | EmptyString => Some n
  | String c s' =>
      let ch := byte (byteZ c - 48) in
      if 9 <? ch then None else Atoi_loop (int64 (n * 10 + ch)) s'
  end.

(** [strconv.Atoi(s)]: the value and the error. *)
Definition Atoi (s : string) : Z * option NumError :=
  let sLen := Z.of_nat (Strings.len s) in
  if (0 <? sLen) && (sLen <? 19) then
    match s with
    | EmptyString => (0, Some ErrSyntax)
    | String c0 rest =>
        let signed := Ascii.eqb c0 "-" || Ascii.eqb c0 "+" in
        let s1 := if signed then rest else s in
        if signed && (Z.of_nat (Strings.len s1) <? 1) then (0, Some ErrSyntax)
        else
          match Atoi_loop 0 s1 with
          | None => (0, Some ErrSyntax)
          | Some n => (if Ascii.eqb c0 "-" then int64 (- n) else n, None)
          end
    end
  else
    let '(i64, err) := ParseInt s in (int64 i64, err).

(** The byte of a decimal digit. *)
Definition digitByte (d : Z) : ascii := ascii_of_N (Z.to_N (48 + d)).

(** The loop of [formatBits] for base 10: the digits of [u] are written
    from the last one backwards in front of [acc]; [fuel] is the room in
    the buffer. *)
Fixpoint formatBits_loop (fuel : nat) (u : Z) (acc : string) : string :=
  match fuel with
  | O => acc
  | S fuel' =>
      if 10 <=? u
      then let q := u / 10 in
           formatBits_loop fuel' q (String (digitByte (u - q * 10)) acc)
      else String (digitByte u) acc
  end.

(** [strconv.FormatInt(i, 10)], which is also what the verb [%d] of
    [fmt.Sprintf] prints for an [int]. *)
Definition FormatInt (i : Z) : string :=
  let neg := i <? 0 in
  let u := if neg then uint64 (- i) else uint64 i in
  let digits := formatBits_loop 65 u EmptyString in
  if neg then String "-" digits else digits.

End Strconv.

(** ** The version comparator *)

Module Version.

(** [p, _ = strconv.Atoi(s)]: the value, whatever the error. *)
Definition parsed (s : string) : Z := fst (Strconv.Atoi s).

(** The body of [for i := 0; i < n; i++] in [compareVersion]: [todo]
    counts the iterations that remain, [i] is the index. *)
Fixpoint compareVersion_loop (s1 s2 : list string) (todo i : nat) : Z :=
  match todo with
  | O => 0
  | S todo' =>
      let p1 :=
        if (i <? length s1)%nat then fst (Strconv.Atoi (nth i s1 EmptyString)) else 0 in
      let p2 :=
        if (i <? length s2)%nat then fst (Strconv.Atoi (nth i s2 EmptyString)) else 0 in
      if p1 >? p2 then 1
      else if p1 <? p2 then -1
      else compareVersion_loop s1 s2 todo' (S i)
  end.

Definition compareVersion (v1 v2 : string) : Z :=
  let s1 := Strings.Split v1 "." in
  let s2 := Strings.Split v2 "." in
  let n := length s1 in
  let n := if (n <? length s2)%nat then length s2 else n in
  compareVersion_loop s1 s2 n 0.

End Version.

(** ** Decimal numerals *)

Module Numeral.

Definition isDigit (c : ascii) : bool := (48 <=? byteZ c) && (byteZ c <=? 57).

Fixpoint allDigits (s : string) : bool :=
  match s with
  | EmptyString => true
  | String c s' => isDigit c && allDigits s'
  end.

(** The longest prefix of [s] made of decimal digits. *)
Fixpoint digitRun (s : string) : string :=
  match s with
  | EmptyString => EmptyString
  | String c s' => if isDigit c then String c (digitRun s') else EmptyString
  end.

(** The number that the digits of [s] denote, after the digits of [acc]. *)
Fixpoint digitsValueFrom (acc : Z) (s : string) : Z :=
  match s with
  | EmptyString => acc
  | String c s' => digitsValueFrom (acc * 10 + (byteZ c - 48)) s'
  end.

Definition digitsValue (s : string) : Z := digitsValueFrom 0 s.

Definition hasSign (s : string) : bool :=
  match s with
  | String c _ => Ascii.eqb c "+" || Ascii.eqb c "-"
  | EmptyString => false
  end.

Definition isNegative (s : string) : bool :=
  match s with
  | String c _ => Ascii.eqb c "-"
  | EmptyString => false
  end.

(** [s] without its sign, when it has one. *)
Definition unsignedPart (s : string) : string :=
  match s with
  | String c s' => if hasSign s then s' else s
  | EmptyString => EmptyString
  end.

(** A segment is numeric when it is a decimal integer literal: an
    optional sign followed by at least one decimal digit and nothing else. *)
Definition is_numeric (s : string) : bool :=
  match unsignedPart s with
  | EmptyString => false
  | u => allDigits u
  end.

(** The integer a numeric segment denotes. *)
Definition decimalValue (s : string) : option Z :=
  if is_numeric s
  then Some (if isNegative s then - digitsValue (unsignedPart s)
             else digitsValue (unsignedPart s))
  else None.

(** The value of the digits a segment starts with (after its sign): what
    [ParseUint] has accumulated when it meets the first invalid byte. *)
Definition leadingValue (s : string) : Z := digitsValue (digitRun (unsignedPart s)).

(** The segments on which [Atoi] neither clamps nor wraps: a numeral
    within the range of [int], or a non-numeric string whose leading
    digits stay within [uint64]. *)
Definition tame (s : string) : bool :=
  if is_numeric s
  then if isNegative s then leadingValue s <=? 2 ^ 63 else leadingValue s <? 2 ^ 63
  else leadingValue s <=? maxUint64.

(** What [strconv.Atoi] returns, told from the shape of the segment: a
    syntax error and 0 when there is no digit to read or, the leading
    digits staying within [uint64], an invalid byte is met; a range error
    and the nearest bound of [int] when the leading digits leave [uint64]
    (the bytes after them are not looked at) or the numeral leaves [int];
    the value of the numeral otherwise. *)
Definition atoi (s : string) : Z * option Strconv.NumError :=
  let u := unsignedPart s in
  let p := leadingValue s in
  let bound := if isNegative s then minInt64 else maxInt64 in
  match u with
  | EmptyString => (0, Some Strconv.ErrSyntax)
  | _ =>
      if maxUint64 <? p then (bound, Some Strconv.ErrRange)
      else if allDigits u then
        if isNegative s
        then if 2 ^ 63 <? p then (bound, Some Strconv.ErrRange) else (- p, None)
        else if 2 ^ 63 <=? p then (bound, Some Strconv.ErrRange) else (p, None)
      else (0, Some Strconv.ErrSyntax)
  end.

End Numeral.

(** ** The version comparator as the specification words it *)

Module VersionSpec.

(** A numeric segment has its value; "a non-numeric segment parses as 0". *)
Definition segmentValue (s : string) : Z :=
  match Numeral.decimalValue s with
  | Some z => z
  | None => 0
  end.

Definition clamp (z : Z) : Z := Z.max minInt64 (Z.min maxInt64 z).

(** The value of a segment with the bounds of [int] taken into account: a
    numeral is clamped to the range of [int]; a non-numeric segment counts
    as 0 unless its leading digits exceed [maxUint64], and then as the
    bound of [int] on the side of its sign. *)
Definition intValue (s : string) : Z :=
  match Numeral.decimalValue s with
  | Some z => clamp z
  | None =>
      if Numeral.leadingValue s <=? maxUint64 then 0
      else if Numeral.isNegative s then minInt64 else maxInt64
  end.

(** "pad the shorter with zero-valued segments up to the longer's length" *)
Definition padTo (n : nat) (l : list Z) : list Z := l ++ replicate (n - length l) 0.

(** "compare segment-by-segment left to right"; "first segment where
    values differ decides the result; if all compared segments are
    equal, return 0" *)
Fixpoint compareSegments (a b : list Z) : Z :=
  match a, b with
  | x :: a', y :: b' =>
      if x >? y then 1 else if x <? y then -1 else compareSegments a' b'
  | _, _ => 0
  end.

Definition compare_with (value : string -> Z) (v1 v2 : string) : Z :=
  let s1 := value <$> Strings.Split v1 "." in
  let s2 := value <$> Strings.Split v2 "." in
  let n := Nat.max (length s1) (length s2) in
  compareSegments (padTo n s1) (padTo n s2).

Definition compare (v1 v2 : string) : Z := compare_with segmentValue v1 v2.

End VersionSpec.

(** ** The persisted configuration and the authentication service *)

Module CoreConfig.

(** Modelled from the spec: the CF-scoped part of the persisted
    configuration ([core_config.CFConfig], whose implementation is in
    another package): the fields the plugin context reads and writes. *)
Record CFConfig : Type := mkCFConfig {
  cfAPIEndpoint : string;
  cfAuthenticationEndpoint : string;
  cfUAAToken : string;
  cfUAARefreshToken : string
}.

(** Modelled from the spec: the persisted configuration
    ([core_config.ReadWriter]) with its nested CF-scoped configuration. *)
Record ReadWriter : Type := mkReadWriter {
  rwSDKVersion : string;
  rwAPIEndpoint : string;
  rwIAMEndpoint : string;
  rwIAMToken : string;
  rwIAMRefreshToken : string;
  rwTrace : string;
  rwColorEnabled : string;
  rwCheckCLIVersionDisabled : bool;
  rwCFConfig : CFConfig
}.

(** Modelled from the spec: "[HasAPIEndpoint() bool] — true iff the API
    endpoint is a non-empty string" (the CF Credential Context's method,
    promoted from the embedded [core_config.CFConfig]). *)
Definition cfHasAPIEndpoint (cf : CFConfig) : bool :=
  negb (String.eqb (cfAPIEndpoint cf) EmptyString).

(** Modelled from the spec: the setters store their argument in the one
    field they name. *)
Definition setUAAToken (t : string) (cf : CFConfig) : CFConfig :=
  mkCFConfig (cfAPIEndpoint cf) (cfAuthenticationEndpoint cf) t (cfUAARefreshToken cf).

Definition setUAARefreshToken (t : string) (cf : CFConfig) : CFConfig :=
  mkCFConfig (cfAPIEndpoint cf) (cfAuthenticationEndpoint cf) (cfUAAToken cf) t.

Definition setCFConfig (cf : CFConfig) (c : ReadWriter) : ReadWriter :=
  mkReadWriter (rwSDKVersion c) (rwAPIEndpoint c) (rwIAMEndpoint c) (rwIAMToken c)
    (rwIAMRefreshToken c) (rwTrace c) (rwColorEnabled c)
    (rwCheckCLIVersionDisabled c) cf.

Definition setIAMToken (t : string) (c : ReadWriter) : ReadWriter :=
  mkReadWriter (rwSDKVersion c) (rwAPIEndpoint c) (rwIAMEndpoint c) t
    (rwIAMRefreshToken c) (rwTrace c) (rwColorEnabled c)
    (rwCheckCLIVersionDisabled c) (rwCFConfig c).

Definition setIAMRefreshToken (t : string) (c : ReadWriter) : ReadWriter :=
  mkReadWriter (rwSDKVersion c) (rwAPIEndpoint c) (rwIAMEndpoint c) (rwIAMToken c)
    t (rwTrace c) (rwColorEnabled c)
    (rwCheckCLIVersionDisabled c) (rwCFConfig c).

End CoreConfig.

Module Authentication.

(** Modelled from the spec: the token pair of a successful exchange;
    [TokenString] is what the method [Token()] returns, the access token. *)
Record Token : Type := mkToken {
  TokenString : string;
  RefreshToken : string
}.

(** The error value of a failed exchange. *)
Record Failure : Type := mkFailure { failureText : string }.

(** A call of [RefreshToken] on one of the two repositories, with the
    endpoint its configuration was built with and the refresh token sent. *)
Inductive Call : Type :=
| IAMRefresh (TokenEndpoint : string) (refreshToken : string)
| UAARefresh (UAAEndpoint : string) (refreshToken : string).

End Authentication.

(** Go's [error] values that the refresh operations return: those made
    here by [fmt.Errorf], and those handed over by the authentication
    package, passed on as they are. *)
Inductive error : Type :=
| Errorf (msg : string)
| AuthenticationError (e : Authentication.Failure).

(** ** The world a plugin context runs in

    The persisted configuration is shared and mutable; the environment is
    read only; the authentication service is outside the program: the
    world holds what it answers to each call and the calls made so far. *)

Record World : Type := mkWorld {
  config : CoreConfig.ReadWriter;
  environ : gmap string string;
  authService : Authentication.Call -> Authentication.Token + Authentication.Failure;
  authCalls : list Authentication.Call
}.

Definition M (A : Type) : Type := World -> A * World.

Definition ret {A : Type} (a : A) : M A := fun w => (a, w).

Definition bind {A B : Type} (m : M A) (k : A -> M B) : M B :=
  fun w => let '(a, w') := m w in k a w'.

Notation "x <- m ;; k" := (bind m (fun x => k))
  (at level 100, m at next level, right associativity).
Notation "m ;;; k" := (bind m (fun _ => k))
  (at level 100, right associativity).

(** Reading the persisted configuration. *)
Definition read {A : Type} (f : CoreConfig.ReadWriter -> A) : M A :=
  fun w => (f (config w), w).

(** Writing it. *)
Definition write (f : CoreConfig.ReadWriter -> CoreConfig.ReadWriter) : M unit :=
  fun w => (tt, mkWorld (f (config w)) (environ w) (authService w) (authCalls w)).

(** [os.Getenv]: the value of the variable, empty when it is not set. *)
Definition Getenv (key : string) : M string :=
  fun w => (default EmptyString (environ w !! key), w).

(** Modelled from the spec: [auth.RefreshToken], "a token-exchange call
    taking a refresh token and a target endpoint config, returning
    (token, refreshToken, error)".  The call is recorded and the service
    answers. *)
Definition auth_RefreshToken (call : Authentication.Call)
  : M (Authentication.Token + Authentication.Failure) :=
  fun w => (authService w call,
            mkWorld (config w) (environ w) (authService w) (authCalls w ++ [call])).

(** ** The CF credential context, [cfConfigWrapper] *)

Module CF.

Definition HasAPIEndpoint : M bool :=
  read (fun c => CoreConfig.cfHasAPIEndpoint (CoreConfig.rwCFConfig c)).

Definition APIEndpoint : M string :=
  read (fun c => CoreConfig.cfAPIEndpoint (CoreConfig.rwCFConfig c)).

Definition AuthenticationEndpoint : M string :=
  read (fun c => CoreConfig.cfAuthenticationEndpoint (CoreConfig.rwCFConfig c)).

Definition UAAToken : M string :=
  read (fun c => CoreConfig.cfUAAToken (CoreConfig.rwCFConfig c)).

Definition UAARefreshToken : M string :=
  read (fun c => CoreConfig.cfUAARefreshToken (CoreConfig.rwCFConfig c)).

Definition SetUAAToken (t : string) : M unit :=
  write (fun c => CoreConfig.setCFConfig (CoreConfig.setUAAToken t (CoreConfig.rwCFConfig c)) c).

Definition SetUAARefreshToken (t : string) : M unit :=
  write (fun c =>
           CoreConfig.setCFConfig (CoreConfig.setUAARefreshToken t (CoreConfig.rwCFConfig c)) c).

Definition RefreshUAAToken : M (string * option error) :=
  has <- HasAPIEndpoint;;
  if negb has then ret (EmptyString, Some (Errorf "CloudFoundry API endpoint is not set"))
  else
    UAAEndpoint <- AuthenticationEndpoint;;
    refresh <- UAARefreshToken;;
    r <- auth_RefreshToken (Authentication.UAARefresh UAAEndpoint refresh);;
    match r with
    | inr err => ret (EmptyString, Some (AuthenticationError err))
    | inl token =>
        SetUAAToken (Authentication.TokenString token);;;
        SetUAARefreshToken (Authentication.RefreshToken token);;;
        ret (Authentication.TokenString token, None)
    end.

End CF.

(** ** The plugin context, [pluginContext] *)

Module PluginContext.

Definition SDKVersion : M string := read CoreConfig.rwSDKVersion.
Definition IAMEndpoint : M string := read CoreConfig.rwIAMEndpoint.
Definition IAMToken : M string := read CoreConfig.rwIAMToken.
Definition IAMRefreshToken : M string := read CoreConfig.rwIAMRefreshToken.
Definition CheckCLIVersionDisabled : M bool := read CoreConfig.rwCheckCLIVersionDisabled.
Definition SetIAMToken (t : string) : M unit := write (CoreConfig.setIAMToken t).
Definition SetIAMRefreshToken (t : string) : M unit := write (CoreConfig.setIAMRefreshToken t).

Definition APIEndpoint : M string :=
  v <- SDKVersion;;
  if Version.compareVersion v "0.1.1" <? 0
  then read (fun c => CoreConfig.cfAPIEndpoint (CoreConfig.rwCFConfig c))
  else read CoreConfig.rwAPIEndpoint.

Definition HasAPIEndpoint : M bool :=
  e <- APIEndpoint;;
  ret (negb (String.eqb e EmptyString)).

Definition RefreshIAMToken : M (string * option error) :=
  endpoint <- Getenv "IAM_ENDPOINT";;
  endpoint <- (if String.eqb endpoint EmptyString then IAMEndpoint else ret endpoint);;
  if String.eqb endpoint EmptyString
  then ret (EmptyString, Some (Errorf "IAM endpoint is not set"))
  else
    let TokenEndpoint := endpoint +:+ "/identity/token" in
    refresh <- IAMRefreshToken;;
    r <- auth_RefreshToken (Authentication.IAMRefresh TokenEndpoint refresh);;
    match r with
    | inr err => ret (EmptyString, Some (AuthenticationError err))
    | inl iamToken =>
        SetIAMToken (Authentication.TokenString iamToken);;;
        SetIAMRefreshToken (Authentication.RefreshToken iamToken);;;
        ret (Authentication.TokenString iamToken, None)
    end.

Definition getFromEnvOrConfig (envKey : string) (config : string) : M string :=
  envVal <- Getenv envKey;;
  if negb (String.eqb envVal EmptyString) then ret envVal else ret config.

Definition VersionCheckEnabled : M bool :=
  d <- CheckCLIVersionDisabled;; ret (negb d).

Definition HasTargetedCF : M bool := CF.HasAPIEndpoint.

Section Consts.

(** The keys of package [consts], which is not part of this development. *)
Variables ENV_BLUEMIX_TRACE ENV_BLUEMIX_COLOR : string.
Variables ENV_BLUEMIX_PLUGIN_NAMESPACE ENV_BLUEMIX_CLI : string.

Definition Trace : M string :=
  t <- read CoreConfig.rwTrace;; getFromEnvOrConfig ENV_BLUEMIX_TRACE t.

Definition ColorEnabled : M string :=
  t <- read CoreConfig.rwColorEnabled;; getFromEnvOrConfig ENV_BLUEMIX_COLOR t.

Definition CommandNamespace : M string := Getenv ENV_BLUEMIX_PLUGIN_NAMESPACE.

Definition CLIName : M string :=
  cliName <- Getenv ENV_BLUEMIX_CLI;;
  if String.eqb cliName EmptyString then ret "bx" else ret cliName.

End Consts.

End PluginContext.

(** ** The plugin metadata of [plugin.go] *)

Module Metadata.

Record VersionType : Type := mkVersionType {
  Major : Z;
  Minor : Z;
  Build : Z
}.

(** [fmt.Sprintf("%d.%d.%d", v.Major, v.Minor, v.Build)] *)
Definition VersionType_String (v : VersionType) : string :=
  Strconv.FormatInt (Major v) +:+ "." +:+ Strconv.FormatInt (Minor v)
  +:+ "." +:+ Strconv.FormatInt (Build v).

Record Namespace : Type := mkNamespace {
  nsName : string;
  nsDescription : string
}.

Definition ParentName (n : Namespace) : string :=
  match Strings.LastIndexByte (nsName n) " " with
  | None => EmptyString
  | Some i => Strings.sliceTo i (nsName n)
  end.

Record Flag : Type := mkFlag {
  flagName : string;
  flagDescription : string;
  flagHasValue : bool;
  flagHidden : bool
}.

Record Command : Type := mkCommand {
  Namespace_ : string;
  Name : string;
  Alias : string;
  Description : string;
  Usage : string;
  Flags : list Flag;
  Hidden : bool
}.

Definition FullName (c : Command) : string :=
  Strings.TrimSpace (Strings.Join [Namespace_ c; Name c] " ").

Definition FullNames (c : Command) : list string :=
  let names := [FullName c] in
  if negb (String.eqb (Alias c) EmptyString)
  then names ++ [Strings.TrimSpace (Strings.Join [Namespace_ c; Alias c] " ")]
  else names.

End Metadata.

(** ** What the statements below are phrased with *)

(** The base endpoint [RefreshIAMToken] settles on: the override of the
    environment when it is not empty, the persisted IAM endpoint otherwise. *)
Definition iamBaseEndpoint (w : World) : string :=
  let override := default EmptyString (environ w !! "IAM_ENDPOINT") in
  if String.eqb override EmptyString then CoreConfig.rwIAMEndpoint (config w) else override.

(** The CF-scoped and the platform endpoint of a world. *)
Definition cfEndpoint (w : World) : string :=
  CoreConfig.cfAPIEndpoint (CoreConfig.rwCFConfig (config w)).

Definition platformEndpoint (w : World) : string :=
  CoreConfig.rwAPIEndpoint (config w).

(** The order of version triples: [v] is below 0.1.1. *)
Definition below_0_1_1 (v : Metadata.VersionType) : bool :=
  (Metadata.Major v <? 0)
  || (Metadata.Major v =? 0)
     && ((Metadata.Minor v <? 1)
         || (Metadata.Minor v =? 1) && (Metadata.Build v <? 1)).

(** The components of a version triple are non-negative [int]s. *)
Definition wellFormed (v : Metadata.VersionType) : bool :=
  (0 <=? Metadata.Major v) && (Metadata.Major v <=? maxInt64)
  && (0 <=? Metadata.Minor v) && (Metadata.Minor v <=? maxInt64)
  && (0 <=? Metadata.Build v) && (Metadata.Build v <=? maxInt64).

(** The four stored token fields. *)
Definition storedTokens (c : CoreConfig.ReadWriter) : string * string * string * string :=
  (CoreConfig.rwIAMToken c, CoreConfig.rwIAMRefreshToken c,
   CoreConfig.cfUAAToken (CoreConfig.rwCFConfig c),
   CoreConfig.cfUAARefreshToken (CoreConfig.rwCFConfig c)).

(** The world after the exchange [call] was made. *)
Definition called (call : Authentication.Call) (w : World) : World :=
  mkWorld (config w) (environ w) (authService w) (authCalls w ++ [call]).

(** The world after the exchange [call] was made and the configuration
    replaced by [c]. *)
Definition stored (c : CoreConfig.ReadWriter) (call : Authentication.Call) (w : World)
  : World :=
  mkWorld c (environ w) (authService w) (authCalls w ++ [call]).

(** Sample worlds. *)
Definition sampleConfig (sdk : string) : CoreConfig.ReadWriter :=
  CoreConfig.mkReadWriter sdk "https://cloud.example" "https://iam.example"
    "iam-access-0" "iam-refresh-0" "false" "true" false
    (CoreConfig.mkCFConfig "https://api.cf.example" "https://uaa.cf.example"
       "uaa-access-0" "uaa-refresh-0").

Definition refusingService (c : Authentication.Call)
  : Authentication.Token + Authentication.Failure :=
  inr (Authentication.mkFailure "invalid refresh token").

Definition grantingService (c : Authentication.Call)
  : Authentication.Token + Authentication.Failure :=
  inl (Authentication.mkToken "access-1" "refresh-1").

Definition sampleWorld (sdk : string)
    (service : Authentication.Call -> Authentication.Token + Authentication.Failure)
  : World :=
  mkWorld (sampleConfig sdk) ∅ service [].

(** A world with no CF API endpoint and no IAM endpoint. *)
Definition untargetedWorld : World :=
  mkWorld
    (CoreConfig.mkReadWriter "0.1.1" "" "" "iam-access-0" "iam-refresh-0" "" "" false
       (CoreConfig.mkCFConfig "" "" "uaa-access-0" "uaa-refresh-0"))
    ∅ grantingService [].

(** A world whose environment overrides the IAM endpoint. *)
Definition overriddenWorld : World :=
  mkWorld (sampleConfig "0.1.1") {[ "IAM_ENDPOINT" := "https://iam.test" ]}
    refusingService [].

(** ** Notions for the properties of the remaining code *)

(** The values [compareVersion] reads off a version string, segment by
    segment, and the value at an index, 0 past the last segment. *)
Definition segmentValues (v : string) : list Z :=
  Version.parsed <$> Strings.Split v ".".

Definition valueAt (v : string) (i : nat) : Z := nth i (segmentValues v) 0.

(** The values of Go's [int]. *)
Definition isInt (z : Z) : bool := (minInt64 <=? z) && (z <=? maxInt64).

Definition intTriple (v : Metadata.VersionType) : bool :=
  isInt (Metadata.Major v) && isInt (Metadata.Minor v) && isInt (Metadata.Build v).

(** The lexicographic order of version triples. *)
Definition tripleLt (a b : Metadata.VersionType) : Prop :=
  Metadata.Major a < Metadata.Major b
  \/ (Metadata.Major a = Metadata.Major b
      /\ (Metadata.Minor a < Metadata.Minor b
          \/ (Metadata.Minor a = Metadata.Minor b
              /\ Metadata.Build a < Metadata.Build b))).

(** A string that neither starts nor ends with a white space rune. *)
Definition isTrimmed (s : string) : bool :=
  match Strings.leadingSpace s, Strings.trailingSpace s with
  | None, None => true
  | _, _ => false
  end.

(** A string without the byte [c]. *)
Definition lacks (c : ascii) (s : string) : bool := Nat.eqb (Strings.Count s c) 0.

(** The fields of the configuration that are not IAM tokens, and those
    that are not UAA tokens. *)
Definition besideIAMTokens (c : CoreConfig.ReadWriter)
  : string * string * string * string * string * bool * CoreConfig.CFConfig :=
  (CoreConfig.rwSDKVersion c, CoreConfig.rwAPIEndpoint c, CoreConfig.rwIAMEndpoint c,
   CoreConfig.rwTrace c, CoreConfig.rwColorEnabled c,
   CoreConfig.rwCheckCLIVersionDisabled c, CoreConfig.rwCFConfig c).

Definition besideUAATokens (c : CoreConfig.ReadWriter)
  : string * string * string * string * string * string * string * bool
    * string * string :=
  (CoreConfig.rwSDKVersion c, CoreConfig.rwAPIEndpoint c, CoreConfig.rwIAMEndpoint c,
   CoreConfig.rwIAMToken c, CoreConfig.rwIAMRefreshToken c,
   CoreConfig.rwTrace c, CoreConfig.rwColorEnabled c,
   CoreConfig.rwCheckCLIVersionDisabled c,
   CoreConfig.cfAPIEndpoint (CoreConfig.rwCFConfig c),
   CoreConfig.cfAuthenticationEndpoint (CoreConfig.rwCFConfig c)).

(** The exchange the two operations ask for in a world. *)
Definition iamCall (w : World) : Authentication.Call :=
  Authentication.IAMRefresh (iamBaseEndpoint w +:+ "/identity/token")
    (CoreConfig.rwIAMRefreshToken (config w)).

Definition uaaCall (w : World) : Authentication.Call :=
  Authentication.UAARefresh
    (CoreConfig.cfAuthenticationEndpoint (CoreConfig.rwCFConfig (config w)))
    (CoreConfig.cfUAARefreshToken (CoreConfig.rwCFConfig (config w))).

(** After its first byte the string has no space. *)
Definition tailLacksSpace (e : string) : bool :=
  match e with
  | EmptyString => true
  | String _ t => lacks " " t
  end.

(** A string made of white space runes only: a concatenation of
    encodings of white space code points. *)
Inductive whiteSpace : string -> Prop :=
| whiteSpace_nil : whiteSpace EmptyString
| whiteSpace_cons (e s : string) :
    In e Strings.spaceEncodings -> whiteSpace s -> whiteSpace (e +:+ s).

(** [t] is [s] with the surrounding white space trimmed: [s] is white
    space, [t], white space, and [t] neither starts nor ends with a white
    space rune. *)
Definition trimOf (s t : string) : Prop :=
  isTrimmed t = true
  /\ exists l r : string, s = l +:+ t +:+ r /\ whiteSpace l /\ whiteSpace r.

(** A service that answers every refresh token with a pair made from it. *)
Definition rotatingService (c : Authentication.Call)
  : Authentication.Token + Authentication.Failure :=
  match c with
  | Authentication.IAMRefresh _ r | Authentication.UAARefresh _ r =>
      inl (Authentication.mkToken ("access-for-" +:+ r) ("next-" +:+ r))
  end.

(** * Facts about the numeral parser *)

Section AtoiFacts.

Import Numeral Strconv.

Lemma byteZ_range (c : ascii) : 0 <= byteZ c < 256.
Proof.
  unfold byteZ. pose proof (N_ascii_bounded c) as H. lia.
Qed.

Lemma isDigit_value (c : ascii) :
  isDigit c = true -> 0 <= byteZ c - 48 <= 9.
Proof. unfold isDigit. lia. Qed.

Lemma allDigits_digitRun (s : string) : allDigits s = true -> digitRun s = s.
Proof.
  induction s as [|c s IH]; simpl; [done|].
  intros [Hc Hs]%andb_true_iff. rewrite Hc. by rewrite IH.
Qed.

Lemma digitRun_allDigits (s : string) : allDigits (digitRun s) = true.
Proof.
  induction s as [|c s IH]; simpl; [done|].
  destruct (isDigit c) eqn:Hc; simpl; [|done]. by rewrite Hc.
Qed.

Lemma digitsValueFrom_ge (s : string) (acc : Z) :
  allDigits s = true -> 0 <= acc -> acc <= digitsValueFrom acc s.
Proof.
  revert acc. induction s as [|c s IH]; simpl; intros acc; [lia|].
  intros [Hc Hs]%andb_true_iff Hacc.
  apply isDigit_value in Hc.
  specialize (IH (acc * 10 + (byteZ c - 48)) Hs). lia.
Qed.

Lemma digitsValueFrom_run_ge (s : string) (acc : Z) :
  0 <= acc -> acc <= digitsValueFrom acc (digitRun s).
Proof. apply digitsValueFrom_ge, digitRun_allDigits. Qed.

(** What the loop of [ParseUint] computes from an accumulator within
    [uint64]: it gives up at the first digit that takes the value
    above [maxUint64], before it looks at the bytes that follow. *)
Lemma ParseUint_loop_spec (s : string) (n : Z) :
  0 <= n <= maxUint64 ->
  ParseUint_loop n s =
    if maxUint64 <? digitsValueFrom n (digitRun s) then (maxUint64, Some ErrRange)
    else if allDigits s then (digitsValueFrom n s, None)
    else (0, Some ErrSyntax).
Proof.
  revert n. induction s as [|c s IH]; intros n Hn.
  - simpl. destruct (Z.ltb_spec maxUint64 n); [lia|done].
  - cbn [ParseUint_loop digitRun allDigits digitsValueFrom].
    pose proof (byteZ_range c) as Hb.
    unfold isDigit.
    destruct ((48 <=? byteZ c) && (byteZ c <=? 57)) eqn:Hd.
    + assert (Hd' : 0 <= byteZ c - 48 <= 9) by lia.
      assert (Hbyte : byte (byteZ c - 48) = byteZ c - 48).
      { unfold byte. apply Z.mod_small. lia. }
      rewrite Hbyte. unfold base, byte. change (10 mod 256) with 10.
      destruct (Z.leb_spec 10 (byteZ c - 48)); [lia|].
      cbn [digitsValueFrom andb].
      pose proof (digitsValueFrom_run_ge s (n * 10 + (byteZ c - 48))) as Hge.
      unfold maxUint64 in *.
      change (2 ^ 64 - 1) with 18446744073709551615 in *.
      change (18446744073709551615 / 10 + 1) with 1844674407370955162.
      destruct (Z.leb_spec 1844674407370955162 n).
      * destruct (Z.ltb_spec 18446744073709551615
                    (digitsValueFrom (n * 10 + (byteZ c - 48)) (digitRun s))); [done|lia].
      * unfold uint64. change (2 ^ 64) with 18446744073709551616.
        rewrite (Z.mod_small (n * 10)) by lia.
        destruct (Z_lt_le_dec (n * 10 + (byteZ c - 48)) 18446744073709551616) as [Hlt|Hge'].
        -- rewrite (Z.mod_small (n * 10 + (byteZ c - 48))) by lia.
           destruct (Z.ltb_spec (n * 10 + (byteZ c - 48)) (n * 10)); [lia|].
           destruct (Z.ltb_spec 18446744073709551615 (n * 10 + (byteZ c - 48))); [lia|].
           cbn [orb]. rewrite IH by lia.
           change (2 ^ 64 - 1) with 18446744073709551615. done.
        -- assert (Hm : (n * 10 + (byteZ c - 48)) mod 18446744073709551616
                        = n * 10 + (byteZ c - 48) - 18446744073709551616).
           { symmetry. apply Z.mod_unique with (q := 1); lia. }
           rewrite Hm.
           destruct (Z.ltb_spec (n * 10 + (byteZ c - 48) - 18446744073709551616) (n * 10)); [|lia].
           cbn [orb].
           destruct (Z.ltb_spec 18446744073709551615
                    (digitsValueFrom (n * 10 + (byteZ c - 48)) (digitRun s))); [done|lia].
    + cbn [andb digitsValueFrom].
      destruct (Z.ltb_spec maxUint64 n); [lia|].
      destruct ((97 <=? byteZ c) && (byteZ c <=? 122)) eqn:Hl.
      * assert (Hbyte : byte (byteZ c - 97 + 10) = byteZ c - 97 + 10).
        { unfold byte. apply Z.mod_small. lia. }
        rewrite Hbyte. unfold base, byte. change (10 mod 256) with 10.
        destruct (Z.leb_spec 10 (byteZ c - 97 + 10)); [done|lia].
      * destruct ((65 <=? byteZ c) && (byteZ c <=? 90)) eqn:Hu; [|done].
        assert (Hbyte : byte (byteZ c - 65 + 10) = byteZ c - 65 + 10).
        { unfold byte. apply Z.mod_small. lia. }
        rewrite Hbyte. unfold base, byte. change (10 mod 256) with 10.
        destruct (Z.leb_spec 10 (byteZ c - 65 + 10)); [done|lia].
Qed.

Lemma int64_small (z : Z) : - 2 ^ 63 <= z < 2 ^ 63 -> int64 z = z.
Proof.
intros Hz. unfold int64.
change (2 ^ 64) with (2 * 2 ^ 63). rewrite Z.mod_small; lia.
Qed.

Lemma digitsValueFrom_lt (s : string) (acc : Z) :
  allDigits s = true -> 0 <= acc ->
  digitsValueFrom acc s < (acc + 1) * 10 ^ Z.of_nat (String.length s).
Proof.
revert acc. induction s as [|c s IH]; intros acc.
- simpl. lia.
- cbn [allDigits digitsValueFrom String.length].
  intros [Hc Hs]%andb_true_iff Hacc. apply isDigit_value in Hc.
  rewrite Nat2Z.inj_succ, Z.pow_succ_r by lia.
  specialize (IH (acc * 10 + (byteZ c - 48)) Hs).
  assert (0 < 10 ^ Z.of_nat (String.length s)) by (apply Z.pow_pos_nonneg; lia).
  nia.
Qed.

(** The loop of the fast path, as long as the digits cannot leave [int]. *)
Lemma Atoi_loop_spec (s : string) (n : Z) :
  0 <= n -> (n + 1) * 10 ^ Z.of_nat (String.length s) <= 2 ^ 63 ->
  Atoi_loop n s = if allDigits s then Some (digitsValueFrom n s) else None.
Proof.
revert n. induction s as [|c s IH]; intros n Hn Hb; [done|].
cbn [Atoi_loop allDigits digitsValueFrom String.length] in *.
rewrite Nat2Z.inj_succ, Z.pow_succ_r in Hb by lia.
assert (Hp : 0 < 10 ^ Z.of_nat (String.length s)) by (apply Z.pow_pos_nonneg; lia).
pose proof (byteZ_range c) as Hc.
unfold isDigit, byte.
destruct (Z.leb_spec 48 (byteZ c)) as [H48|H48]; cbn [andb].
- rewrite (Z.mod_small (byteZ c - 48)) by lia.
  destruct (Z.leb_spec (byteZ c) 57) as [H57|H57].
  + destruct (Z.ltb_spec 9 (byteZ c - 48)); [lia|].
    rewrite int64_small by nia. apply IH; nia.
  + destruct (Z.ltb_spec 9 (byteZ c - 48)); [done|lia].
- assert (Hm : (byteZ c - 48) mod 256 = byteZ c - 48 + 256).
  { symmetry. apply Z.mod_unique with (q := -1); lia. }
  rewrite Hm. destruct (Z.ltb_spec 9 (byteZ c - 48 + 256)); [done|lia].
Qed.

Lemma is_numeric_unsigned (s : string) :
  is_numeric s = negb (String.eqb (unsignedPart s) EmptyString) && allDigits (unsignedPart s).
Proof. unfold is_numeric. by destruct (unsignedPart s). Qed.

Lemma digitRun_length (s : string) :
  (String.length (digitRun s) <= String.length s)%nat.
Proof.
induction s as [|c s IH]; cbn [digitRun String.length]; [lia|].
destruct (isDigit c); cbn [String.length]; lia.
Qed.

Lemma digitsValue_bounds (s : string) :
  allDigits s = true -> 0 <= digitsValue s < 10 ^ Z.of_nat (String.length s).
Proof.
intros Hall. unfold digitsValue.
pose proof (digitsValueFrom_lt s 0 Hall ltac:(lia)).
pose proof (digitsValueFrom_ge s 0 Hall ltac:(lia)). lia.
Qed.

(** A run of at most 18 digits stays below 10^18. *)
Lemma leading_short (s : string) :
  (String.length s <= 18)%nat -> 0 <= digitsValue (digitRun s) < 10 ^ 18.
Proof.
intros Hlen.
pose proof (digitsValue_bounds (digitRun s) (digitRun_allDigits s)) as Hb.
pose proof (digitRun_length s) as Hl.
assert (10 ^ Z.of_nat (String.length (digitRun s)) <= 10 ^ 18)
  by (apply Z.pow_le_mono_r; lia).
lia.
Qed.

(** [Atoi], fast path and slow path, is [Numeral.atoi]. *)
Lemma Atoi_atoi (s : string) : Atoi s = Numeral.atoi s.
Proof.
destruct s as [|c0 rest]; [done|].
unfold Atoi, atoi, Strings.len, leadingValue.
destruct ((0 <? Z.of_nat (String.length (String c0 rest)))
          && (Z.of_nat (String.length (String c0 rest)) <? 19)) eqn:Hfast.
- (* the fast path: at most 18 bytes *)
  unfold unsignedPart, hasSign, isNegative.
  rewrite (orb_comm (Ascii.eqb c0 "-")).
  set (signed := Ascii.eqb c0 "+" || Ascii.eqb c0 "-").
  set (s1 := if signed then rest else String c0 rest).
  assert (Hlen : (String.length s1 <= 18)%nat).
  { subst s1. cbn [String.length] in Hfast.
    apply andb_true_iff in Hfast as [_ Hlt%Z.ltb_lt].
    destruct signed; cbn [String.length]; lia. }
  pose proof (leading_short s1 Hlen) as Hlead.
  destruct s1 as [|c1 s1'] eqn:Hs1.
  + destruct signed; [done|]. done.
  + replace (signed && (Z.of_nat (String.length (String c1 s1')) <? 1)) with false
      by (cbn [String.length]; destruct signed;
          [cbn [andb]; symmetry; apply Z.ltb_ge; lia|done]).
    rewrite Atoi_loop_spec; [|lia|].
    2:{ change (2 ^ 63) with 9223372036854775808.
        assert (10 ^ Z.of_nat (String.length (String c1 s1')) <= 10 ^ 18)
          by (apply Z.pow_le_mono_r; lia). lia. }
    set (p := digitsValue (digitRun (String c1 s1'))) in *.
    unfold maxUint64. change (2 ^ 64 - 1) with 18446744073709551615.
    change (2 ^ 63) with 9223372036854775808.
    change (10 ^ 18) with 1000000000000000000 in Hlead.
    destruct (Z.ltb_spec 18446744073709551615 p); [lia|].
    destruct (allDigits (String c1 s1')) eqn:Hall; [|done].
    fold (digitsValue (String c1 s1')).
    subst p. rewrite (allDigits_digitRun _ Hall) in *.
    set (p := digitsValue (String c1 s1')) in *.
    destruct (Ascii.eqb c0 "-").
    * destruct (Z.ltb_spec 9223372036854775808 p); [lia|].
      rewrite int64_small; [done|]. change (2 ^ 63) with 9223372036854775808. lia.
    * destruct (Z.leb_spec 9223372036854775808 p); [lia|done].
- (* the slow path: [ParseInt] *)
  clear Hfast.
  unfold ParseInt, unsignedPart, hasSign, isNegative.
  set (neg := Ascii.eqb c0 "-").
  set (s1 := if Ascii.eqb c0 "+" || neg then rest else String c0 rest).
  destruct s1 as [|c1 s1'] eqn:Hs1; [done|].
  unfold ParseUint. rewrite ParseUint_loop_spec by (unfold maxUint64; lia).
  fold (digitsValue (digitRun (String c1 s1'))).
  fold (digitsValue (String c1 s1')).
  pose proof (digitsValue_bounds _ (digitRun_allDigits (String c1 s1'))) as [Hge _].
  set (p := digitsValue (digitRun (String c1 s1'))) in *.
  unfold maxUint64, minInt64, maxInt64.
  change (2 ^ 64 - 1) with 18446744073709551615.
  change (2 ^ 63 - 1) with 9223372036854775807.
  change (- 2 ^ 63) with (-9223372036854775808).
  change (2 ^ 63) with 9223372036854775808.
  destruct (Z.ltb_spec 18446744073709551615 p) as [Hov|Hov].
  + (* the leading digits leave [uint64] *)
    destruct neg; cbn [negb andb]; done.
  + destruct (allDigits (String c1 s1')) eqn:Hall; [|done].
    subst p. rewrite (allDigits_digitRun _ Hall) in *.
    set (p := digitsValue (String c1 s1')) in *.
    destruct neg; cbn [negb andb].
    * destruct (Z.ltb_spec 9223372036854775808 p); [done|].
      f_equal. unfold int64.
      change (2 ^ 63) with 9223372036854775808.
      change (2 ^ 64) with 18446744073709551616.
      destruct (Z.eq_dec p 9223372036854775808) as [->|Hne]; [done|].
      rewrite (Z.mod_small (p + _)) by lia.
      replace (p + 9223372036854775808 - 9223372036854775808) with p by lia.
      rewrite (Z.mod_small (- p + _)) by lia.
      replace (- p + 9223372036854775808 - 9223372036854775808) with (- p) by lia.
      rewrite Z.mod_small by lia. lia.
    * destruct (Z.leb_spec 9223372036854775808 p); [done|].
      f_equal. rewrite !int64_small; [done|..];
        change (2 ^ 63) with 9223372036854775808; try lia.
      rewrite int64_small; change (2 ^ 63) with 9223372036854775808; lia.
Qed.

(** The value [compareVersion] works with. *)
Lemma parsed_intValue (s : string) : Version.parsed s = VersionSpec.intValue s.
Proof.
unfold Version.parsed. rewrite Atoi_atoi.
unfold atoi, VersionSpec.intValue, decimalValue, VersionSpec.clamp.
rewrite is_numeric_unsigned.
pose proof (digitsValue_bounds _ (digitRun_allDigits (unsignedPart s))) as [Hge _].
fold (leadingValue s) in Hge.
unfold minInt64, maxInt64, maxUint64.
change (2 ^ 64 - 1) with 18446744073709551615.
change (2 ^ 63 - 1) with 9223372036854775807.
change (- 2 ^ 63) with (-9223372036854775808).
change (2 ^ 63) with 9223372036854775808.
destruct (unsignedPart s) as [|c1 u'] eqn:Hu.
{ cbn [String.eqb negb andb].
  assert (Hl : leadingValue s = 0) by (unfold leadingValue; rewrite Hu; done).
  rewrite Hl. done. }
cbn [String.eqb negb andb].
destruct (allDigits (String c1 u')) eqn:Hall.
- assert (Hl : leadingValue s = digitsValue (String c1 u')).
  { unfold leadingValue. rewrite Hu, (allDigits_digitRun _ Hall). done. }
  rewrite Hl in *. set (p := digitsValue (String c1 u')) in *.
  destruct (Z.ltb_spec 18446744073709551615 p); cbn [fst].
  + destruct (isNegative s); lia.
  + destruct (isNegative s).
    * destruct (Z.ltb_spec 9223372036854775808 p); cbn [fst]; lia.
    * destruct (Z.leb_spec 9223372036854775808 p); cbn [fst]; lia.
- destruct (Z.ltb_spec 18446744073709551615 (leadingValue s));
    destruct (Z.leb_spec (leadingValue s) 18446744073709551615); try lia; done.
Qed.

(** On a tame segment [Atoi] returns the value of the numeral, and 0
    when the segment is not a numeral. *)
Lemma intValue_tame (s : string) :
  tame s = true -> VersionSpec.intValue s = VersionSpec.segmentValue s.
Proof.
unfold tame, VersionSpec.intValue, VersionSpec.segmentValue, decimalValue, VersionSpec.clamp.
pose proof (digitsValue_bounds _ (digitRun_allDigits (unsignedPart s))) as [Hge _].
fold (leadingValue s) in Hge.
destruct (is_numeric s) eqn:Hnum.
- assert (Hl : leadingValue s = digitsValue (unsignedPart s)).
  { unfold leadingValue. rewrite is_numeric_unsigned in Hnum.
    apply andb_true_iff in Hnum as [_ Hall]. by rewrite (allDigits_digitRun _ Hall). }
  rewrite <- Hl. unfold minInt64, maxInt64.
  change (2 ^ 63 - 1) with 9223372036854775807.
  change (- 2 ^ 63) with (-9223372036854775808).
  change (2 ^ 63) with 9223372036854775808.
  destruct (isNegative s); lia.
- by intros ->.
Qed.

Lemma Atoi_tame (s : string) :
  tame s = true -> fst (Atoi s) = VersionSpec.segmentValue s.
Proof.
intros Ht. rewrite <- (intValue_tame s Ht). apply parsed_intValue.
Qed.

Lemma Atoi_nonnumeric_tame (s : string) :
  is_numeric s = false -> tame s = true -> Atoi s = (0, Some ErrSyntax).
Proof.
unfold tame. intros Hnum. rewrite Hnum. intros Ht%Z.leb_le.
rewrite Atoi_atoi. unfold atoi.
rewrite is_numeric_unsigned in Hnum.
destruct (unsignedPart s) as [|c1 u'] eqn:Hu; [done|].
cbn [String.eqb negb andb] in Hnum. rewrite Hnum.
destruct (Z.ltb_spec maxUint64 (leadingValue s)); [lia|done].
Qed.

End AtoiFacts.

(** * The comparator's loop against the padded, segment-wise comparison *)

Section CompareFacts.

Import Version VersionSpec.

Variable value : string -> Z.

Lemma padTo_length (n : nat) (l : list Z) :
  (length l <= n)%nat -> length (padTo n l) = n.
Proof. intros H. unfold padTo. rewrite length_app, length_replicate. lia. Qed.

Lemma padTo_lookup (n i : nat) (s : list string) :
  (length s <= n)%nat -> (i < n)%nat ->
  padTo n (value <$> s) !! i
  = Some (if (i <? length s)%nat then value (nth i s EmptyString) else 0).
Proof.
intros Hn Hi. unfold padTo. rewrite length_fmap.
destruct (Nat.ltb_spec i (length s)) as [Hlt|Hge].
- rewrite lookup_app_l by (rewrite length_fmap; lia).
  rewrite list_lookup_fmap, nth_lookup.
  destruct (lookup_lt_is_Some_2 s i Hlt) as [x ->]. done.
- rewrite lookup_app_r by (rewrite length_fmap; lia).
  rewrite length_fmap. apply lookup_replicate_2. lia.
Qed.

Lemma compareSegments_refl (a : list Z) : compareSegments a a = 0.
Proof.
induction a as [|x a IH]; [done|]. cbn [compareSegments].
destruct (Z.gtb_spec x x); [lia|]. destruct (Z.ltb_spec x x); [lia|]. done.
Qed.

Lemma compareSegments_range (a b : list Z) :
  compareSegments a b = -1 \/ compareSegments a b = 0 \/ compareSegments a b = 1.
Proof.
revert b. induction a as [|x a IH]; intros [|y b]; cbn [compareSegments]; auto.
destruct (x >? y); auto. destruct (x <? y); auto.
Qed.

End CompareFacts.

Section LoopFacts.

Import Version VersionSpec.

(** The indexed loop, started at [i] with [todo] rounds left, compares
    what the two padded lists hold from [i] on. *)
Lemma compareVersion_loop_spec (s1 s2 : list string) (n todo i : nat) :
  (length s1 <= n)%nat -> (length s2 <= n)%nat -> (i + todo = n)%nat ->
  compareVersion_loop s1 s2 todo i
  = compareSegments (drop i (padTo n (parsed <$> s1))) (drop i (padTo n (parsed <$> s2))).
Proof.
intros H1 H2. revert i. induction todo as [|todo IH]; intros i Hi.
- rewrite !drop_ge by (rewrite padTo_length; rewrite ?length_fmap; lia). done.
- assert (Hlt : (i < n)%nat) by lia.
  rewrite (drop_S _ _ i (padTo_lookup parsed n i s1 H1 Hlt)).
  rewrite (drop_S _ _ i (padTo_lookup parsed n i s2 H2 Hlt)).
  cbn [compareVersion_loop compareSegments]. fold (parsed (nth i s1 EmptyString)).
  fold (parsed (nth i s2 EmptyString)).
  rewrite IH by lia. done.
Qed.

Lemma compareVersion_unfold (v1 v2 : string) :
  compareVersion v1 v2 = compare_with parsed v1 v2.
Proof.
unfold compareVersion, compare_with. rewrite !length_fmap.
set (s1 := Strings.Split v1 "."). set (s2 := Strings.Split v2 ".").
replace (if (length s1 <? length s2)%nat then length s2 else length s1)
  with (Nat.max (length s1) (length s2))
  by (destruct (Nat.ltb_spec (length s1) (length s2)); lia).
rewrite (compareVersion_loop_spec s1 s2 (Nat.max (length s1) (length s2))) by lia.
done.
Qed.

Lemma compare_with_ext (f g : string -> Z) (v1 v2 : string) :
  Forall (fun s => f s = g s) (Strings.Split v1 ".") ->
  Forall (fun s => f s = g s) (Strings.Split v2 ".") ->
  compare_with f v1 v2 = compare_with g v1 v2.
Proof.
intros H1 H2. unfold compare_with.
rewrite (Forall_fmap_ext_1 f g _ H1), (Forall_fmap_ext_1 f g _ H2). done.
Qed.

Lemma compareVersion_intValue (v1 v2 : string) :
  compareVersion v1 v2 = compare_with intValue v1 v2.
Proof.
rewrite compareVersion_unfold.
apply compare_with_ext; apply Forall_forall; intros s _; apply parsed_intValue.
Qed.

Lemma compareVersion_tame (v1 v2 : string) :
  forallb Numeral.tame (Strings.Split v1 ".") = true ->
  forallb Numeral.tame (Strings.Split v2 ".") = true ->
  compareVersion v1 v2 = VersionSpec.compare v1 v2.
Proof.
intros H1 H2. rewrite compareVersion_unfold. apply compare_with_ext.
- apply Forall_forall. intros s Hs%list_elem_of_In. apply Atoi_tame.
  rewrite forallb_forall in H1. by apply H1.
- apply Forall_forall. intros s Hs%list_elem_of_In. apply Atoi_tame.
  rewrite forallb_forall in H2. by apply H2.
Qed.

Lemma compareVersion_refl (v : string) : compareVersion v v = 0.
Proof. rewrite compareVersion_unfold. apply compareSegments_refl. Qed.

Lemma compareVersion_range (v1 v2 : string) :
  compareVersion v1 v2 = -1 \/ compareVersion v1 v2 = 0 \/ compareVersion v1 v2 = 1.
Proof. rewrite compareVersion_unfold. apply compareSegments_range. Qed.

End LoopFacts.

(** * The version gate of [APIEndpoint] *)

Section GateFacts.

Import Version.

Lemma APIEndpoint_unfold (w : World) :
  PluginContext.APIEndpoint w
  = (if compareVersion (CoreConfig.rwSDKVersion (config w)) "0.1.1" <? 0
     then cfEndpoint w else platformEndpoint w, w).
Proof.
unfold PluginContext.APIEndpoint, PluginContext.SDKVersion, bind, read.
by destruct (compareVersion _ _ <? 0).
Qed.

(** Two rounds of the loop against "0.1.1" when the first two segments
    of the other side, as far as they exist, parse as 0. *)
Lemma compareVersion_loop_zero_prefix (s1 : list string) (m : nat) :
  (forall i : nat, (i < 2)%nat -> (i < length s1)%nat ->
                   fst (Strconv.Atoi (nth i s1 EmptyString)) = 0) ->
  compareVersion_loop s1 ["0"; "1"; "1"] (S (S m)) 0 = -1.
Proof.
intros Hz. cbn [compareVersion_loop].
change (fst (Strconv.Atoi (nth 0 ["0"; "1"; "1"] EmptyString))) with 0.
change (fst (Strconv.Atoi (nth 1 ["0"; "1"; "1"] EmptyString))) with 1.
change (0 <? length ["0"; "1"; "1"])%nat with true.
change (1 <? length ["0"; "1"; "1"])%nat with true.
cbn iota.
assert (H0 : (if (0 <? length s1)%nat
              then fst (Strconv.Atoi (nth 0 s1 EmptyString)) else 0) = 0).
{ destruct (Nat.ltb_spec 0 (length s1)); [apply Hz; lia|done]. }
assert (H1 : (if (1 <? length s1)%nat
              then fst (Strconv.Atoi (nth 1 s1 EmptyString)) else 0) = 0).
{ destruct (Nat.ltb_spec 1 (length s1)); [apply Hz; lia|done]. }
rewrite H0, H1. done.
Qed.

Lemma compareVersion_nonnumeric (v : string) :
  forallb (fun s => negb (Numeral.is_numeric s) && Numeral.tame s)
          (Strings.Split v ".") = true ->
  compareVersion v "0.1.1" = -1.
Proof.
intros Hall. unfold compareVersion.
change (Strings.Split "0.1.1" ".") with ["0"; "1"; "1"].
set (s1 := Strings.Split v ".") in *.
assert (Hn : exists m : nat,
           (if (length s1 <? length ["0"; "1"; "1"])%nat
            then length ["0"; "1"; "1"] else length s1) = S (S m)).
{ cbn [length]. destruct (Nat.ltb_spec (length s1) 3).
  - by exists 1%nat.
  - exists (length s1 - 2)%nat. lia. }
destruct Hn as [m ->]. apply compareVersion_loop_zero_prefix.
intros i _ Hi. rewrite forallb_forall in Hall.
specialize (Hall (nth i s1 EmptyString) (nth_In s1 EmptyString Hi)).
apply andb_true_iff in Hall as [Hnum%negb_true_iff Htame].
by rewrite (Atoi_nonnumeric_tame _ Hnum Htame).
Qed.

End GateFacts.

(** * The two refresh operations, one step at a time *)

Section RefreshFacts.

Import CoreConfig Authentication.

Lemma RefreshIAMToken_unfold (w : World) :
  PluginContext.RefreshIAMToken w
  = if String.eqb (iamBaseEndpoint w) EmptyString
    then ((EmptyString, Some (Errorf "IAM endpoint is not set")), w)
    else
      let call := IAMRefresh (iamBaseEndpoint w +:+ "/identity/token")
                             (rwIAMRefreshToken (config w)) in
      match authService w call with
      | inr err => ((EmptyString, Some (AuthenticationError err)), called call w)
      | inl token =>
          ((TokenString token, None),
           stored (setIAMRefreshToken (RefreshToken token)
                     (setIAMToken (TokenString token) (config w))) call w)
      end.
Proof.
unfold PluginContext.RefreshIAMToken, iamBaseEndpoint, bind, Getenv.
destruct (String.eqb (default EmptyString (environ w !! "IAM_ENDPOINT")) EmptyString) eqn:He;
  unfold PluginContext.IAMEndpoint, read, ret.
- destruct (String.eqb (rwIAMEndpoint (config w)) EmptyString); [done|].
  unfold PluginContext.IAMRefreshToken, auth_RefreshToken, read. cbn [config authService].
  by destruct (authService w _).
- rewrite He.
  unfold PluginContext.IAMRefreshToken, auth_RefreshToken, read. cbn [config authService].
  by destruct (authService w _).
Qed.

Lemma RefreshUAAToken_unfold (w : World) :
  CF.RefreshUAAToken w
  = if cfHasAPIEndpoint (rwCFConfig (config w))
    then
      let call := UAARefresh (cfAuthenticationEndpoint (rwCFConfig (config w)))
                             (cfUAARefreshToken (rwCFConfig (config w))) in
      match authService w call with
      | inr err => ((EmptyString, Some (AuthenticationError err)), called call w)
      | inl token =>
          ((TokenString token, None),
           stored (setCFConfig
                     (setUAARefreshToken (RefreshToken token)
                        (setUAAToken (TokenString token) (rwCFConfig (config w))))
                     (config w)) call w)
      end
    else ((EmptyString, Some (Errorf "CloudFoundry API endpoint is not set")), w).
Proof.
unfold CF.RefreshUAAToken, CF.HasAPIEndpoint, bind, read.
destruct (cfHasAPIEndpoint (rwCFConfig (config w))); [|done].
cbn [negb]. unfold CF.AuthenticationEndpoint, CF.UAARefreshToken, auth_RefreshToken, read.
cbn [config authService].
by destruct (authService w _).
Qed.

Lemma eqb_empty_false (s : string) : String.eqb s EmptyString = false <-> s <> EmptyString.
Proof. apply String.eqb_neq. Qed.

End RefreshFacts.

(** * Version triples: printing, splitting and parsing back *)

Section TripleFacts.

Import Numeral Strconv Strings Version.

Lemma append_cons (c : ascii) (d e : string) : String c d +:+ e = String c (d +:+ e).
Proof. reflexivity. Qed.

Lemma append_nil (e : string) : EmptyString +:+ e = e.
Proof. reflexivity. Qed.

Lemma byteZ_digitByte (d : Z) : 0 <= d <= 9 -> byteZ (digitByte d) = 48 + d.
Proof.
intros Hd. unfold byteZ, digitByte.
rewrite N_ascii_embedding by lia. lia.
Qed.

Lemma isDigit_digitByte (d : Z) : 0 <= d <= 9 -> isDigit (digitByte d) = true.
Proof. intros Hd. unfold isDigit. rewrite byteZ_digitByte by done. lia. Qed.

Lemma allDigits_app (d e : string) :
  allDigits (d +:+ e) = allDigits d && allDigits e.
Proof.
induction d as [|c d IH]; rewrite ?append_nil, ?append_cons; cbn [allDigits]; [done|].
by rewrite IH, andb_assoc.
Qed.

Lemma digitsValueFrom_app (d e : string) (a : Z) :
  digitsValueFrom a (d +:+ e) = digitsValueFrom (digitsValueFrom a d) e.
Proof.
revert a. induction d as [|c d IH]; intros a; rewrite ?append_nil, ?append_cons; cbn [digitsValueFrom]; [done|].
apply IH.
Qed.

Lemma append_assoc (a b c : string) : (a +:+ b) +:+ c = a +:+ (b +:+ c).
Proof. induction a as [|x a IH]; rewrite ?append_nil, ?append_cons; [done|]. by rewrite IH. Qed.

(** The digits [formatBits] writes denote the number it was given. *)
Lemma formatBits_loop_spec (fuel : nat) (u : Z) (acc : string) :
  0 <= u < 10 ^ Z.of_nat (S fuel) ->
  exists d : string,
    formatBits_loop (S fuel) u acc = d +:+ acc
    /\ allDigits d = true /\ d <> EmptyString /\ digitsValue d = u.
Proof.
revert u acc. induction fuel as [|fuel IH]; intros u acc Hu.
- change (10 ^ Z.of_nat 1) with 10 in Hu. cbn [formatBits_loop].
  destruct (Z.leb_spec 10 u); [lia|].
  exists (String (digitByte u) EmptyString). repeat split; [| |].
  + cbn [allDigits]. rewrite isDigit_digitByte by lia. done.
  + done.
  + unfold digitsValue. cbn [digitsValueFrom]. rewrite byteZ_digitByte by lia. lia.
- rewrite Nat2Z.inj_succ, Z.pow_succ_r in Hu by lia.
  change (formatBits_loop (S (S fuel)) u acc)
    with (if 10 <=? u
          then formatBits_loop (S fuel) (u / 10) (String (digitByte (u - u / 10 * 10)) acc)
          else String (digitByte u) acc).
  destruct (Z.leb_spec 10 u) as [Hge|Hlt].
  + assert (Hq : 0 <= u / 10 < 10 ^ Z.of_nat (S fuel)).
    { split; [apply Z.div_pos; lia|apply Z.div_lt_upper_bound; lia]. }
    assert (Hr : 0 <= u - u / 10 * 10 <= 9).
    { pose proof (Z.div_mod u 10 ltac:(lia)). pose proof (Z.mod_pos_bound u 10 ltac:(lia)).
      lia. }
    destruct (IH (u / 10) (String (digitByte (u - u / 10 * 10)) acc) Hq)
      as (d & -> & Hall & Hne & Hval).
    exists (d +:+ String (digitByte (u - u / 10 * 10)) EmptyString).
    rewrite append_assoc, append_cons, append_nil. repeat split.
    * rewrite allDigits_app, Hall. cbn [allDigits].
      rewrite isDigit_digitByte by done. done.
    * by destruct d.
    * unfold digitsValue in *. rewrite digitsValueFrom_app, Hval.
      cbn [digitsValueFrom]. rewrite byteZ_digitByte by done. lia.
  + exists (String (digitByte u) EmptyString). repeat split.
    * cbn [allDigits]. rewrite isDigit_digitByte by lia. done.
    * done.
    * unfold digitsValue. cbn [digitsValueFrom]. rewrite byteZ_digitByte by lia. lia.
Qed.

Lemma append_empty_r (a : string) : a +:+ EmptyString = a.
Proof. induction a as [|x a IH]; rewrite ?append_nil, ?append_cons; [done|]. by rewrite IH. Qed.

Lemma FormatInt_nonneg (n : Z) :
  0 <= n <= maxInt64 ->
  allDigits (FormatInt n) = true /\ FormatInt n <> EmptyString
  /\ digitsValue (FormatInt n) = n.
Proof.
unfold maxInt64. change (2 ^ 63 - 1) with 9223372036854775807. intros Hn.
unfold FormatInt. destruct (Z.ltb_spec n 0); [lia|].
assert (Hu : uint64 n = n).
{ unfold uint64. change (2 ^ 64) with 18446744073709551616. apply Z.mod_small. lia. }
rewrite Hu.
destruct (formatBits_loop_spec 64 n EmptyString) as (d & Hd & Hall & Hne & Hval).
{ assert (2 ^ 63 < 10 ^ Z.of_nat 65) by (vm_compute; done).
  change (2 ^ 63) with 9223372036854775808 in *. lia. }
rewrite Hd, append_empty_r. done.
Qed.

Lemma isDigit_not_sign (c : ascii) :
  isDigit c = true -> Ascii.eqb c "+" || Ascii.eqb c "-" = false.
Proof.
intros Hc.
destruct (Ascii.eqb_spec c "+") as [->|_]; [discriminate Hc|].
destruct (Ascii.eqb_spec c "-") as [->|_]; [discriminate Hc|]. done.
Qed.

Lemma isDigit_not_dot (c : ascii) : isDigit c = true -> Ascii.eqb c "." = false.
Proof.
intros Hc. destruct (Ascii.eqb_spec c ".") as [->|_]; [discriminate Hc|done].
Qed.

(** The numeral of a number of [int] parses back to it. *)
Lemma parsed_digits (d : string) :
  allDigits d = true -> d <> EmptyString -> digitsValue d <= maxInt64 ->
  parsed d = digitsValue d.
Proof.
intros Hall Hne Hval. rewrite parsed_intValue.
unfold VersionSpec.intValue, decimalValue. rewrite is_numeric_unsigned.
destruct d as [|c d']; [done|].
pose proof Hall as Hall'. cbn [allDigits] in Hall'.
apply andb_true_iff in Hall' as [Hc _].
pose proof (isDigit_not_sign c Hc) as Hsign.
assert (Hu : unsignedPart (String c d') = String c d').
{ unfold unsignedPart, hasSign. by rewrite Hsign. }
assert (Hneg : isNegative (String c d') = false).
{ unfold isNegative. by apply orb_false_iff in Hsign as [_ ->]. }
rewrite Hu, Hneg, Hall. cbn [String.eqb negb andb].
pose proof (digitsValue_bounds _ Hall) as [Hge _].
unfold VersionSpec.clamp, minInt64, maxInt64 in *. lia.
Qed.

Lemma IndexByte_digits_dot (d r : string) :
  allDigits d = true -> IndexByte (d +:+ String "." r) "." = Some (String.length d).
Proof.
induction d as [|c d IH]; rewrite ?append_nil, ?append_cons; cbn [IndexByte allDigits String.length]; [done|].
intros [Hc Hd]%andb_true_iff. rewrite (isDigit_not_dot c Hc), (IH Hd). done.
Qed.

Lemma Count_digits_dot (d r : string) :
  allDigits d = true -> Count (d +:+ String "." r) "." = S (Count r ".").
Proof.
induction d as [|c d IH]; rewrite ?append_nil, ?append_cons; cbn [Count allDigits]; [done|].
intros [Hc Hd]%andb_true_iff. rewrite (isDigit_not_dot c Hc). by apply IH.
Qed.

Lemma Count_digits (d : string) : allDigits d = true -> Count d "." = O.
Proof.
induction d as [|c d IH]; cbn [Count allDigits]; [done|].
intros [Hc Hd]%andb_true_iff. rewrite (isDigit_not_dot c Hc). by apply IH.
Qed.

Lemma sliceTo_app (d r : string) : sliceTo (String.length d) (d +:+ r) = d.
Proof.
induction d as [|c d IH]; rewrite ?append_nil, ?append_cons; cbn [sliceTo String.length]; [by destruct r|].
by rewrite IH.
Qed.

Lemma sliceFrom_app (d r : string) (c : ascii) :
  sliceFrom (String.length d + 1) (d +:+ String c r) = r.
Proof.
induction d as [|x d IH]; rewrite ?append_nil, ?append_cons; cbn [Nat.add sliceFrom String.length]; [done|].
apply IH.
Qed.

(** Three numerals joined by dots split into the three numerals. *)
Lemma Split_three (a b c : string) :
  allDigits a = true -> allDigits b = true -> allDigits c = true ->
  Split (a +:+ "." +:+ b +:+ "." +:+ c) "." = [a; b; c].
Proof.
intros Ha Hb Hc. unfold Split.
change ("." +:+ b +:+ "." +:+ c) with (String "." (b +:+ String "." c)).
rewrite (Count_digits_dot a _ Ha), (Count_digits_dot b _ Hb), (Count_digits c Hc).
cbn [genericSplit_loop].
rewrite (IndexByte_digits_dot a _ Ha), sliceTo_app, sliceFrom_app.
rewrite (IndexByte_digits_dot b _ Hb), sliceTo_app, sliceFrom_app.
done.
Qed.

(** The comparator on a printed triple is the order of triples. *)
Lemma compareVersion_triple (v : Metadata.VersionType) :
  wellFormed v = true ->
  (compareVersion (Metadata.VersionType_String v) "0.1.1" <? 0) = below_0_1_1 v.
Proof.
unfold wellFormed, below_0_1_1. intros Hwf.
destruct (FormatInt_nonneg (Metadata.Major v) ltac:(lia)) as (Ha & Hane & Hav).
destruct (FormatInt_nonneg (Metadata.Minor v) ltac:(lia)) as (Hb & Hbne & Hbv).
destruct (FormatInt_nonneg (Metadata.Build v) ltac:(lia)) as (Hc & Hcne & Hcv).
unfold compareVersion, Metadata.VersionType_String.
rewrite (Split_three _ _ _ Ha Hb Hc).
change (Split "0.1.1" ".") with ["0"; "1"; "1"].
cbn [length Nat.ltb Nat.leb compareVersion_loop nth].
fold (parsed (FormatInt (Metadata.Major v))).
fold (parsed (FormatInt (Metadata.Minor v))).
fold (parsed (FormatInt (Metadata.Build v))).
rewrite !parsed_digits by (done || lia).
rewrite Hav, Hbv, Hcv.
change (fst (Atoi "0")) with 0. change (fst (Atoi "1")) with 1.
destruct (Z.gtb_spec (Metadata.Major v) 0); [lia|].
destruct (Z.ltb_spec (Metadata.Major v) 0); [lia|].
destruct (Z.gtb_spec (Metadata.Minor v) 1); [lia|].
destruct (Z.ltb_spec (Metadata.Minor v) 1); [lia|].
destruct (Z.gtb_spec (Metadata.Build v) 1); [lia|].
destruct (Z.ltb_spec (Metadata.Build v) 1); lia.
Qed.

End TripleFacts.

(** * The claims *)

Import Version.

(** C2, as amended.  For every pair of version strings, [compareVersion]
    is the comparison the specification describes: both strings split on
    ".", the shorter list padded with zero-valued segments up to the
    length of the longer, the segments compared left to right, the first
    differing pair deciding (-1 or 1), 0 when all are equal, no error
    raised.  The value of a segment is what [Atoi] returns, its error
    dropped ([VersionSpec.intValue]): a numeral counts as its number,
    clamped to the range of [int]; a non-numeric segment counts as 0,
    unless the digits it starts with (after an optional sign) exceed
    2^64-1, and then as the largest [int] (the smallest after a minus
    sign).  So on tame segments the comparison is the one with
    "non-numeric is 0" ([VersionSpec.compare]).  [compareVersion v v = 0]
    for every [v], [compareVersion "0.1.1.0" "0.1.1" = 0],
    [compareVersion "0.1.0" "0.1.1" < 0], [compareVersion "1.0" "0.9.9" > 0]. *)
Theorem compareVersion_padded_segments :
  (forall v1 v2 : string,
      compareVersion v1 v2 = VersionSpec.compare_with VersionSpec.intValue v1 v2)
  /\ (forall s : string,
        Numeral.is_numeric s = false -> Numeral.leadingValue s <= maxUint64 ->
        Strconv.Atoi s = (0, Some Strconv.ErrSyntax))
  /\ (forall v1 v2 : string,
        forallb Numeral.tame (Strings.Split v1 ".") = true ->
        forallb Numeral.tame (Strings.Split v2 ".") = true ->
        compareVersion v1 v2 = VersionSpec.compare v1 v2)
  /\ (forall v1 v2 : string,
        compareVersion v1 v2 = -1 \/ compareVersion v1 v2 = 0 \/ compareVersion v1 v2 = 1)
  /\ (forall v : string, compareVersion v v = 0)
  /\ compareVersion "0.1.1.0" "0.1.1" = 0
  /\ compareVersion "0.1.1" "0.1.1" = 0
  /\ compareVersion "0.1.0" "0.1.1" < 0
  /\ compareVersion "1.0" "0.9.9" > 0.
Proof.
split; [exact compareVersion_intValue|].
split.
{ intros s Hnum Hlead. apply Atoi_nonnumeric_tame; [done|].
  unfold Numeral.tame. rewrite Hnum. lia. }
split; [exact compareVersion_tame|].
split; [exact compareVersion_range|].
split; [exact compareVersion_refl|].
repeat split; vm_compute; reflexivity.
Qed.

Lemma compareVersion_padded_segments_witness :
  compareVersion "1.x.3" "1.0.2" = VersionSpec.compare "1.x.3" "1.0.2"
  /\ Strconv.Atoi "x" = (0, Some Strconv.ErrSyntax).
Proof.
split.
- apply (proj1 (proj2 (proj2 compareVersion_padded_segments))); vm_compute; reflexivity.
- apply (proj1 (proj2 compareVersion_padded_segments)); vm_compute; [reflexivity|discriminate].
Defined.

(** C2, as stated, fails: the segment "99999999999999999999x" is not
    numeric, yet [Atoi] returns the largest [int] for it, so the version
    compares greater than "1" where the comparison of the specification,
    which counts the segment as 0, makes it smaller. *)
Lemma compareVersion_nonnumeric_counterexample :
  Numeral.is_numeric "99999999999999999999x" = false
  /\ Strconv.Atoi "99999999999999999999x" = (maxInt64, Some Strconv.ErrRange)
  /\ compareVersion "99999999999999999999x" "1" = 1
  /\ VersionSpec.compare "99999999999999999999x" "1" = -1
  /\ compareVersion "99999999999999999999x" "1"
     <> VersionSpec.compare "99999999999999999999x" "1".
Proof. repeat split; vm_compute; (reflexivity || discriminate). Qed.

(** C1.  In every world [APIEndpoint] returns the CF-scoped endpoint when
    the stored SDK version compares below "0.1.1" under [compareVersion]
    and the platform endpoint otherwise, and leaves the world as it is.
    With SDK version "0.1.0" it is the CF-scoped endpoint, whatever the
    platform endpoint is.  With a version that does not compare below
    "0.1.1" it is the platform endpoint: such are "0.1.1", "0.1.2",
    "0.2.0", "1.0" and "1.0.0", and the printed form of every version
    triple of non-negative [int]s that is 0.1.1 or higher in the order of
    triples. *)
Theorem APIEndpoint_version_gate :
  (forall w : World,
      PluginContext.APIEndpoint w
      = (if compareVersion (CoreConfig.rwSDKVersion (config w)) "0.1.1" <? 0
         then cfEndpoint w else platformEndpoint w, w))
  /\ (forall w : World,
        compareVersion (CoreConfig.rwSDKVersion (config w)) "0.1.1" < 0 ->
        fst (PluginContext.APIEndpoint w) = cfEndpoint w)
  /\ (forall w : World,
        0 <= compareVersion (CoreConfig.rwSDKVersion (config w)) "0.1.1" ->
        fst (PluginContext.APIEndpoint w) = platformEndpoint w)
  /\ (forall w : World,
        CoreConfig.rwSDKVersion (config w) = "0.1.0" ->
        fst (PluginContext.APIEndpoint w) = cfEndpoint w)
  /\ (forall w : World,
        In (CoreConfig.rwSDKVersion (config w)) ["0.1.1"; "0.1.2"; "0.2.0"; "1.0"; "1.0.0"] ->
        fst (PluginContext.APIEndpoint w) = platformEndpoint w)
  /\ (forall (w : World) (v : Metadata.VersionType),
        wellFormed v = true ->
        CoreConfig.rwSDKVersion (config w) = Metadata.VersionType_String v ->
        fst (PluginContext.APIEndpoint w)
        = if below_0_1_1 v then cfEndpoint w else platformEndpoint w).
Proof.
split; [exact APIEndpoint_unfold|].
split.
{ intros w H. rewrite APIEndpoint_unfold. cbn [fst].
  destruct (Z.ltb_spec (compareVersion (CoreConfig.rwSDKVersion (config w)) "0.1.1") 0);
    [done|lia]. }
split.
{ intros w H. rewrite APIEndpoint_unfold. cbn [fst].
  destruct (Z.ltb_spec (compareVersion (CoreConfig.rwSDKVersion (config w)) "0.1.1") 0);
    [lia|done]. }
split.
{ intros w H. rewrite APIEndpoint_unfold, H. done. }
split.
{ intros w H. rewrite APIEndpoint_unfold. cbn [In] in H.
  destruct H as [<-|[<-|[<-|[<-|[<-|[]]]]]]; done. }
intros w v Hwf Hv. rewrite APIEndpoint_unfold, Hv, (compareVersion_triple v Hwf). done.
Qed.

Lemma APIEndpoint_version_gate_witness :
  fst (PluginContext.APIEndpoint (sampleWorld "0.1.0" refusingService))
  = "https://api.cf.example"
  /\ fst (PluginContext.APIEndpoint (sampleWorld "0.1.1" refusingService))
     = "https://cloud.example"
  /\ fst (PluginContext.APIEndpoint (sampleWorld "2.10.3" refusingService))
     = "https://cloud.example".
Proof.
split; [|split].
- apply (proj1 (proj2 (proj2 (proj2 APIEndpoint_version_gate)))
           (sampleWorld "0.1.0" refusingService)).
  reflexivity.
- apply (proj1 (proj2 (proj2 APIEndpoint_version_gate))
           (sampleWorld "0.1.1" refusingService)).
  vm_compute. discriminate.
- apply (proj2 (proj2 (proj2 (proj2 (proj2 APIEndpoint_version_gate))))
           (sampleWorld "2.10.3" refusingService) (Metadata.mkVersionType 2 10 3)).
  + vm_compute. reflexivity.
  + vm_compute. reflexivity.
Defined.

(** C9, as amended.  When every dot-separated segment of the stored SDK
    version is non-numeric and tame (its leading digits, after an optional
    sign, do not exceed 2^64-1) -- the empty string included --
    [compareVersion] parses every segment as 0, the version compares
    below "0.1.1", and [APIEndpoint] returns the CF-scoped endpoint. *)
Theorem APIEndpoint_nonnumeric_version (w : World) :
  forallb (fun s => negb (Numeral.is_numeric s) && Numeral.tame s)
          (Strings.Split (CoreConfig.rwSDKVersion (config w)) ".") = true ->
  compareVersion (CoreConfig.rwSDKVersion (config w)) "0.1.1" < 0
  /\ PluginContext.APIEndpoint w = (cfEndpoint w, w).
Proof.
intros H. apply compareVersion_nonnumeric in H.
rewrite APIEndpoint_unfold, H. split; [lia|done].
Qed.

Lemma APIEndpoint_nonnumeric_version_witness :
  PluginContext.APIEndpoint (sampleWorld "" refusingService)
  = ("https://api.cf.example", sampleWorld "" refusingService)
  /\ PluginContext.APIEndpoint (sampleWorld "dev.build-7" refusingService)
     = ("https://api.cf.example", sampleWorld "dev.build-7" refusingService).
Proof.
split.
- apply (APIEndpoint_nonnumeric_version (sampleWorld "" refusingService)).
  vm_compute. reflexivity.
- apply (APIEndpoint_nonnumeric_version (sampleWorld "dev.build-7" refusingService)).
  vm_compute. reflexivity.
Defined.

(** C9, as stated, fails: the only segment of the SDK version
    "99999999999999999999x" is non-numeric, yet it parses as the largest
    [int], the version compares above "0.1.1", and [APIEndpoint] returns
    the platform endpoint, which differs from the CF-scoped one. *)
Lemma APIEndpoint_nonnumeric_counterexample :
  forallb (fun s => negb (Numeral.is_numeric s))
          (Strings.Split
             (CoreConfig.rwSDKVersion
                (config (sampleWorld "99999999999999999999x" refusingService))) ".") = true
  /\ compareVersion "99999999999999999999x" "0.1.1" = 1
  /\ fst (PluginContext.APIEndpoint (sampleWorld "99999999999999999999x" refusingService))
     = "https://cloud.example"
  /\ fst (PluginContext.APIEndpoint (sampleWorld "99999999999999999999x" refusingService))
     <> cfEndpoint (sampleWorld "99999999999999999999x" refusingService).
Proof. repeat split; vm_compute; (reflexivity || discriminate). Qed.

(** C3.  When the exchange with the authentication service fails, both
    [RefreshIAMToken] and [RefreshUAAToken] return the error of the
    service as it is, and the persisted configuration, hence each of the
    four stored token fields, is what it was before the call. *)
Theorem refresh_failure_keeps_tokens :
  (forall (w : World) (err : Authentication.Failure),
      iamBaseEndpoint w <> EmptyString ->
      authService w
        (Authentication.IAMRefresh (iamBaseEndpoint w +:+ "/identity/token")
           (CoreConfig.rwIAMRefreshToken (config w))) = inr err ->
      fst (PluginContext.RefreshIAMToken w) = (EmptyString, Some (AuthenticationError err))
      /\ config (snd (PluginContext.RefreshIAMToken w)) = config w
      /\ storedTokens (config (snd (PluginContext.RefreshIAMToken w)))
         = storedTokens (config w))
  /\ (forall (w : World) (err : Authentication.Failure),
        cfEndpoint w <> EmptyString ->
        authService w
          (Authentication.UAARefresh
             (CoreConfig.cfAuthenticationEndpoint (CoreConfig.rwCFConfig (config w)))
             (CoreConfig.cfUAARefreshToken (CoreConfig.rwCFConfig (config w)))) = inr err ->
        fst (CF.RefreshUAAToken w) = (EmptyString, Some (AuthenticationError err))
        /\ config (snd (CF.RefreshUAAToken w)) = config w
        /\ storedTokens (config (snd (CF.RefreshUAAToken w))) = storedTokens (config w)).
Proof.
split.
- intros w err Hbase Hsvc. rewrite RefreshIAMToken_unfold.
  apply eqb_empty_false in Hbase. rewrite Hbase. cbv zeta. rewrite Hsvc. done.
- intros w err Hcf Hsvc. rewrite RefreshUAAToken_unfold.
  unfold CoreConfig.cfHasAPIEndpoint. fold (cfEndpoint w).
  apply eqb_empty_false in Hcf. rewrite Hcf. cbn [negb]. cbv zeta. rewrite Hsvc. done.
Qed.

Lemma refresh_failure_keeps_tokens_witness :
  (fst (PluginContext.RefreshIAMToken (sampleWorld "0.1.1" refusingService))
   = (EmptyString,
      Some (AuthenticationError (Authentication.mkFailure "invalid refresh token")))
   /\ storedTokens (config (snd (PluginContext.RefreshIAMToken
                                   (sampleWorld "0.1.1" refusingService))))
      = ("iam-access-0", "iam-refresh-0", "uaa-access-0", "uaa-refresh-0"))
  /\ (fst (CF.RefreshUAAToken (sampleWorld "0.1.1" refusingService))
      = (EmptyString,
         Some (AuthenticationError (Authentication.mkFailure "invalid refresh token")))
      /\ storedTokens (config (snd (CF.RefreshUAAToken
                                      (sampleWorld "0.1.1" refusingService))))
         = ("iam-access-0", "iam-refresh-0", "uaa-access-0", "uaa-refresh-0")).
Proof.
split.
- destruct (proj1 refresh_failure_keeps_tokens
              (sampleWorld "0.1.1" refusingService)
              (Authentication.mkFailure "invalid refresh token")) as (Hr & _ & Ht).
  + vm_compute. discriminate.
  + reflexivity.
  + split; [exact Hr|]. rewrite Ht. reflexivity.
- destruct (proj2 refresh_failure_keeps_tokens
              (sampleWorld "0.1.1" refusingService)
              (Authentication.mkFailure "invalid refresh token")) as (Hr & _ & Ht).
  + vm_compute. discriminate.
  + reflexivity.
  + split; [exact Hr|]. rewrite Ht. reflexivity.
Defined.

(** C4.  When the exchange succeeds with a token pair, both
    [RefreshIAMToken] and [RefreshUAAToken] store the new access token and
    the new refresh token in the persisted configuration (in the IAM
    fields and in the UAA fields respectively, nothing else changes) and
    return the new access token with no error. *)
Theorem refresh_success_stores_tokens :
  (forall (w : World) (token : Authentication.Token),
      iamBaseEndpoint w <> EmptyString ->
      authService w
        (Authentication.IAMRefresh (iamBaseEndpoint w +:+ "/identity/token")
           (CoreConfig.rwIAMRefreshToken (config w))) = inl token ->
      fst (PluginContext.RefreshIAMToken w) = (Authentication.TokenString token, None)
      /\ CoreConfig.rwIAMToken (config (snd (PluginContext.RefreshIAMToken w)))
         = Authentication.TokenString token
      /\ CoreConfig.rwIAMRefreshToken (config (snd (PluginContext.RefreshIAMToken w)))
         = Authentication.RefreshToken token
      /\ config (snd (PluginContext.RefreshIAMToken w))
         = CoreConfig.setIAMRefreshToken (Authentication.RefreshToken token)
             (CoreConfig.setIAMToken (Authentication.TokenString token) (config w)))
  /\ (forall (w : World) (token : Authentication.Token),
        cfEndpoint w <> EmptyString ->
        authService w
          (Authentication.UAARefresh
             (CoreConfig.cfAuthenticationEndpoint (CoreConfig.rwCFConfig (config w)))
             (CoreConfig.cfUAARefreshToken (CoreConfig.rwCFConfig (config w)))) = inl token ->
        fst (CF.RefreshUAAToken w) = (Authentication.TokenString token, None)
        /\ CoreConfig.cfUAAToken (CoreConfig.rwCFConfig (config (snd (CF.RefreshUAAToken w))))
           = Authentication.TokenString token
        /\ CoreConfig.cfUAARefreshToken
             (CoreConfig.rwCFConfig (config (snd (CF.RefreshUAAToken w))))
           = Authentication.RefreshToken token
        /\ config (snd (CF.RefreshUAAToken w))
           = CoreConfig.setCFConfig
               (CoreConfig.setUAARefreshToken (Authentication.RefreshToken token)
                  (CoreConfig.setUAAToken (Authentication.TokenString token)
                     (CoreConfig.rwCFConfig (config w))))
               (config w)).
Proof.
split.
- intros w token Hbase Hsvc. rewrite RefreshIAMToken_unfold.
  apply eqb_empty_false in Hbase. rewrite Hbase. cbv zeta. rewrite Hsvc. done.
- intros w token Hcf Hsvc. rewrite RefreshUAAToken_unfold.
  unfold CoreConfig.cfHasAPIEndpoint. fold (cfEndpoint w).
  apply eqb_empty_false in Hcf. rewrite Hcf. cbn [negb]. cbv zeta. rewrite Hsvc. done.
Qed.

Lemma refresh_success_stores_tokens_witness :
  (fst (PluginContext.RefreshIAMToken (sampleWorld "0.1.1" grantingService))
   = ("access-1", None)
   /\ storedTokens (config (snd (PluginContext.RefreshIAMToken
                                   (sampleWorld "0.1.1" grantingService))))
      = ("access-1", "refresh-1", "uaa-access-0", "uaa-refresh-0"))
  /\ (fst (CF.RefreshUAAToken (sampleWorld "0.1.1" grantingService)) = ("access-1", None)
      /\ storedTokens (config (snd (CF.RefreshUAAToken
                                      (sampleWorld "0.1.1" grantingService))))
         = ("iam-access-0", "iam-refresh-0", "access-1", "refresh-1")).
Proof.
split.
- destruct (proj1 refresh_success_stores_tokens
              (sampleWorld "0.1.1" grantingService)
              (Authentication.mkToken "access-1" "refresh-1")) as (Hr & _ & _ & Hc).
  + vm_compute. discriminate.
  + reflexivity.
  + split; [exact Hr|]. rewrite Hc. reflexivity.
- destruct (proj2 refresh_success_stores_tokens
              (sampleWorld "0.1.1" grantingService)
              (Authentication.mkToken "access-1" "refresh-1")) as (Hr & _ & _ & Hc).
  + vm_compute. discriminate.
  + reflexivity.
  + split; [exact Hr|]. rewrite Hc. reflexivity.
Defined.

(** C5.  When the CF API endpoint is the empty string, [RefreshUAAToken]
    returns the configuration error at once: the world it leaves is the
    world it found, so no exchange was made and no token field written. *)
Theorem RefreshUAAToken_without_endpoint (w : World) :
  cfEndpoint w = EmptyString ->
  CF.RefreshUAAToken w
  = ((EmptyString, Some (Errorf "CloudFoundry API endpoint is not set")), w)
  /\ authCalls (snd (CF.RefreshUAAToken w)) = authCalls w
  /\ storedTokens (config (snd (CF.RefreshUAAToken w))) = storedTokens (config w).
Proof.
intros Hcf. rewrite RefreshUAAToken_unfold.
unfold CoreConfig.cfHasAPIEndpoint. fold (cfEndpoint w). rewrite Hcf. done.
Qed.

Lemma RefreshUAAToken_without_endpoint_witness :
  CF.RefreshUAAToken untargetedWorld
  = ((EmptyString, Some (Errorf "CloudFoundry API endpoint is not set")), untargetedWorld).
Proof.
apply (RefreshUAAToken_without_endpoint untargetedWorld). reflexivity.
Defined.

(** C6.  [RefreshIAMToken] takes as base endpoint the value of the
    environment variable IAM_ENDPOINT when that is not empty and the
    persisted IAM endpoint otherwise.  It returns a configuration error (an
    error made by [fmt.Errorf]) if and only if both are empty, and then
    touches nothing; otherwise it makes one exchange, with the token
    endpoint that is the base endpoint followed by "/identity/token" and
    with the stored IAM refresh token. *)
Theorem RefreshIAMToken_endpoint (w : World) :
  (iamBaseEndpoint w
   = match environ w !! "IAM_ENDPOINT" with
     | Some override =>
         if String.eqb override EmptyString
         then CoreConfig.rwIAMEndpoint (config w) else override
     | None => CoreConfig.rwIAMEndpoint (config w)
     end)
  /\ ((exists msg : string,
          snd (fst (PluginContext.RefreshIAMToken w)) = Some (Errorf msg))
      <-> default EmptyString (environ w !! "IAM_ENDPOINT") = EmptyString
          /\ CoreConfig.rwIAMEndpoint (config w) = EmptyString)
  /\ (iamBaseEndpoint w = EmptyString ->
      PluginContext.RefreshIAMToken w
      = ((EmptyString, Some (Errorf "IAM endpoint is not set")), w))
  /\ (iamBaseEndpoint w <> EmptyString ->
      authCalls (snd (PluginContext.RefreshIAMToken w))
      = authCalls w
          ++ [Authentication.IAMRefresh (iamBaseEndpoint w +:+ "/identity/token")
                (CoreConfig.rwIAMRefreshToken (config w))]).
Proof.
assert (Hempty : iamBaseEndpoint w = EmptyString
                 <-> default EmptyString (environ w !! "IAM_ENDPOINT") = EmptyString
                     /\ CoreConfig.rwIAMEndpoint (config w) = EmptyString).
{ unfold iamBaseEndpoint.
  destruct (String.eqb_spec (default EmptyString (environ w !! "IAM_ENDPOINT")) EmptyString)
    as [He|He]; cbv zeta; rewrite ?He; tauto. }
split.
{ unfold iamBaseEndpoint. by destruct (environ w !! "IAM_ENDPOINT"). }
split.
{ rewrite <- Hempty. rewrite RefreshIAMToken_unfold.
  destruct (String.eqb_spec (iamBaseEndpoint w) EmptyString) as [He|He].
  - split; [done|]. intros _. by eexists.
  - cbv zeta. split; [|done]. intros [msg Hmsg]. revert Hmsg.
    by destruct (authService w _). }
split.
{ intros He. rewrite RefreshIAMToken_unfold, He. done. }
intros He. rewrite RefreshIAMToken_unfold.
apply eqb_empty_false in He. rewrite He. cbv zeta.
by destruct (authService w _).
Qed.

Lemma RefreshIAMToken_endpoint_witness :
  PluginContext.RefreshIAMToken untargetedWorld
  = ((EmptyString, Some (Errorf "IAM endpoint is not set")), untargetedWorld)
  /\ authCalls (snd (PluginContext.RefreshIAMToken overriddenWorld))
     = [Authentication.IAMRefresh "https://iam.test/identity/token" "iam-refresh-0"]
  /\ authCalls (snd (PluginContext.RefreshIAMToken (sampleWorld "0.1.1" grantingService)))
     = [Authentication.IAMRefresh "https://iam.example/identity/token" "iam-refresh-0"].
Proof.
split; [|split].
- apply (proj1 (proj2 (proj2 (RefreshIAMToken_endpoint untargetedWorld)))).
  vm_compute. reflexivity.
- rewrite (proj2 (proj2 (proj2 (RefreshIAMToken_endpoint overriddenWorld)))).
  + vm_compute. reflexivity.
  + vm_compute. discriminate.
- rewrite (proj2 (proj2 (proj2 (RefreshIAMToken_endpoint
                                  (sampleWorld "0.1.1" grantingService))))).
  + vm_compute. reflexivity.
  + vm_compute. discriminate.
Defined.

(** C7.  For every key and every configuration value, [getFromEnvOrConfig]
    returns the value of the environment variable when it is set to a
    non-empty string, and the configuration value when the variable is not
    set or set to the empty string; [Trace] and [ColorEnabled] are this
    resolution at their keys and persisted values; none of them changes
    the world. *)
Theorem getFromEnvOrConfig_override :
  (forall (envKey cfg : string) (w : World),
      PluginContext.getFromEnvOrConfig envKey cfg w
      = (match environ w !! envKey with
         | Some v => if String.eqb v EmptyString then cfg else v
         | None => cfg
         end, w))
  /\ (forall (envKey cfg v : string) (w : World),
        environ w !! envKey = Some v -> v <> EmptyString ->
        PluginContext.getFromEnvOrConfig envKey cfg w = (v, w))
  /\ (forall (envKey cfg : string) (w : World),
        environ w !! envKey = None \/ environ w !! envKey = Some EmptyString ->
        PluginContext.getFromEnvOrConfig envKey cfg w = (cfg, w))
  /\ (forall (ENV_BLUEMIX_TRACE ENV_BLUEMIX_COLOR : string) (w : World),
        PluginContext.Trace ENV_BLUEMIX_TRACE w
        = PluginContext.getFromEnvOrConfig ENV_BLUEMIX_TRACE
            (CoreConfig.rwTrace (config w)) w
        /\ PluginContext.ColorEnabled ENV_BLUEMIX_COLOR w
           = PluginContext.getFromEnvOrConfig ENV_BLUEMIX_COLOR
               (CoreConfig.rwColorEnabled (config w)) w
        /\ snd (PluginContext.Trace ENV_BLUEMIX_TRACE w) = w
        /\ snd (PluginContext.ColorEnabled ENV_BLUEMIX_COLOR w) = w).
Proof.
assert (Hget : forall (envKey cfg : string) (w : World),
           PluginContext.getFromEnvOrConfig envKey cfg w
           = (match environ w !! envKey with
              | Some v => if String.eqb v EmptyString then cfg else v
              | None => cfg
              end, w)).
{ intros envKey cfg w. unfold PluginContext.getFromEnvOrConfig, bind, Getenv, ret.
  destruct (environ w !! envKey) as [v|]; cbn [default from_option]; unfold id; [|done].
  by destruct (String.eqb v EmptyString). }
split; [exact Hget|].
split.
{ intros envKey cfg v w Hv Hne. rewrite Hget, Hv.
  apply eqb_empty_false in Hne. by rewrite Hne. }
split.
{ intros envKey cfg w [Hv|Hv]; rewrite Hget, Hv; done. }
intros tk ck w.
assert (Ht : PluginContext.Trace tk w
             = PluginContext.getFromEnvOrConfig tk (CoreConfig.rwTrace (config w)) w)
  by done.
assert (Hc : PluginContext.ColorEnabled ck w
             = PluginContext.getFromEnvOrConfig ck (CoreConfig.rwColorEnabled (config w)) w)
  by done.
rewrite Ht, Hc, !Hget. done.
Qed.

Lemma getFromEnvOrConfig_override_witness :
  PluginContext.getFromEnvOrConfig "IAM_ENDPOINT" "cfg" overriddenWorld
  = ("https://iam.test", overriddenWorld)
  /\ PluginContext.getFromEnvOrConfig "BLUEMIX_TRACE" "cfg" overriddenWorld
     = ("cfg", overriddenWorld).
Proof.
split.
- apply (proj1 (proj2 getFromEnvOrConfig_override)).
  + vm_compute. reflexivity.
  + discriminate.
- apply (proj1 (proj2 (proj2 getFromEnvOrConfig_override))).
  left. vm_compute. reflexivity.
Defined.

(** C8.  In every world [HasAPIEndpoint] is true exactly when
    [APIEndpoint] is not the empty string: for the plugin context, where
    it is computed from the version-gated [APIEndpoint] itself, and for the
    CF context. *)
Theorem HasAPIEndpoint_iff_nonempty (w : World) :
  (fst (PluginContext.HasAPIEndpoint w) = true
   <-> fst (PluginContext.APIEndpoint w) <> EmptyString)
  /\ PluginContext.HasAPIEndpoint w
     = (negb (String.eqb (fst (PluginContext.APIEndpoint w)) EmptyString), w)
  /\ (fst (CF.HasAPIEndpoint w) = true <-> fst (CF.APIEndpoint w) <> EmptyString)
  /\ (fst (PluginContext.HasTargetedCF w) = true <-> fst (CF.APIEndpoint w) <> EmptyString).
Proof.
assert (Hp : PluginContext.HasAPIEndpoint w
             = (negb (String.eqb (fst (PluginContext.APIEndpoint w)) EmptyString), w)).
{ unfold PluginContext.HasAPIEndpoint, bind, ret.
  rewrite APIEndpoint_unfold. done. }
assert (Hcf : fst (CF.HasAPIEndpoint w) = true <-> fst (CF.APIEndpoint w) <> EmptyString).
{ unfold CF.HasAPIEndpoint, CF.APIEndpoint, read, CoreConfig.cfHasAPIEndpoint. cbn [fst].
  rewrite negb_true_iff. apply eqb_empty_false. }
split; [|split; [exact Hp|split; [exact Hcf|exact Hcf]]].
rewrite Hp. cbn [fst]. rewrite negb_true_iff. apply eqb_empty_false.
Qed.

(** * Further properties of the version comparator *)

Section OrderFacts.

Import Version VersionSpec.

Lemma nth_padTo (n i : nat) (a : list Z) : nth i (padTo n a) 0 = nth i a 0.
Proof.
unfold padTo. destruct (Nat.lt_ge_cases i (length a)) as [Hlt|Hge].
- by rewrite app_nth1.
- rewrite app_nth2 by lia. rewrite (nth_overflow a) by lia.
  rewrite nth_lookup. destruct (replicate _ _ !! _) as [x|] eqn:Hx; [|done].
  by apply lookup_replicate_1 in Hx as [-> _].
Qed.

Lemma compareSegments_flip (a b : list Z) :
  compareSegments b a = - compareSegments a b.
Proof.
revert b. induction a as [|x a IH]; intros [|y b]; cbn [compareSegments]; try done.
destruct (Z.gtb_spec y x), (Z.ltb_spec y x), (Z.gtb_spec x y), (Z.ltb_spec x y);
  try lia. apply IH.
Qed.

(** On lists of one length: equal exactly when no index tells them apart. *)
Lemma compareSegments_zero (a b : list Z) :
  length a = length b ->
  compareSegments a b = 0 <-> forall i : nat, nth i a 0 = nth i b 0.
Proof.
revert b. induction a as [|x a IH]; intros [|y b] Hlen; try discriminate Hlen.
- cbn [compareSegments]. split; [|done]. by intros _ [|i].
- cbn [compareSegments length] in *.
  destruct (Z.gtb_spec x y) as [Hgt|Hle].
  { split; [lia|]. intros H. specialize (H O). cbn [nth] in H. lia. }
  destruct (Z.ltb_spec x y) as [Hlt|Hge].
  { split; [lia|]. intros H. specialize (H O). cbn [nth] in H. lia. }
  rewrite (IH b) by lia. split.
  + intros H [|i]; cbn [nth]; [lia|apply H].
  + intros H i. apply (H (S i)).
Qed.

(** On lists of one length: smaller exactly when the first index that
    tells them apart has the smaller value on the left. *)
Lemma compareSegments_less (a b : list Z) :
  length a = length b ->
  compareSegments a b = -1
  <-> exists k : nat,
        (forall i : nat, (i < k)%nat -> nth i a 0 = nth i b 0) /\ nth k a 0 < nth k b 0.
Proof.
revert b. induction a as [|x a IH]; intros [|y b] Hlen; try discriminate Hlen.
- cbn [compareSegments]. split; [lia|]. intros (k & _ & Hk). destruct k; cbn [nth] in Hk; lia.
- cbn [compareSegments length] in *.
  destruct (Z.gtb_spec x y) as [Hgt|Hle].
  { split; [lia|]. intros ([|k] & Heq & Hk); cbn [nth] in Hk; [lia|].
    specialize (Heq O ltac:(lia)). cbn [nth] in Heq. lia. }
  destruct (Z.ltb_spec x y) as [Hlt|Hge].
  { split; [|done]. intros _. exists O. split; [lia|done]. }
  rewrite (IH b) by lia. split.
  + intros (k & Heq & Hk). exists (S k). split; [|done].
    intros [|i] Hi; cbn [nth]; [lia|apply Heq; lia].
  + intros ([|k] & Heq & Hk); cbn [nth] in Hk; [lia|].
    exists k. split; [|done]. intros i Hi. apply (Heq (S i)). lia.
Qed.

Lemma compareVersion_padded (v1 v2 : string) :
  exists a b : list Z,
    length a = length b
    /\ compareVersion v1 v2 = compareSegments a b
    /\ compareVersion v2 v1 = compareSegments b a
    /\ (forall i : nat, nth i a 0 = valueAt v1 i)
    /\ (forall i : nat, nth i b 0 = valueAt v2 i).
Proof.
set (n := Nat.max (length (segmentValues v1)) (length (segmentValues v2))).
exists (padTo n (segmentValues v1)), (padTo n (segmentValues v2)).
split; [rewrite !padTo_length; lia|].
split; [apply compareVersion_unfold|].
split.
{ rewrite compareVersion_unfold. unfold compare_with.
  fold (segmentValues v1). fold (segmentValues v2).
  by rewrite (Nat.max_comm (length (segmentValues v2))). }
split; intros i; apply nth_padTo.
Qed.

Lemma compareVersion_flip (v1 v2 : string) :
  compareVersion v2 v1 = - compareVersion v1 v2.
Proof.
destruct (compareVersion_padded v1 v2) as (a & b & _ & -> & -> & _).
apply compareSegments_flip.
Qed.

Lemma compareVersion_zero (v1 v2 : string) :
  compareVersion v1 v2 = 0 <-> forall i : nat, valueAt v1 i = valueAt v2 i.
Proof.
destruct (compareVersion_padded v1 v2) as (a & b & Hlen & -> & _ & Ha & Hb).
rewrite (compareSegments_zero a b Hlen).
split; intros H i; specialize (H i); by rewrite ?Ha, ?Hb, <- ?Ha, <- ?Hb in *.
Qed.

Lemma compareVersion_less (v1 v2 : string) :
  compareVersion v1 v2 = -1
  <-> exists k : nat,
        (forall i : nat, (i < k)%nat -> valueAt v1 i = valueAt v2 i)
        /\ valueAt v1 k < valueAt v2 k.
Proof.
destruct (compareVersion_padded v1 v2) as (a & b & Hlen & -> & _ & Ha & Hb).
rewrite (compareSegments_less a b Hlen).
split; intros (k & Heq & Hk); exists k.
- split; [intros i Hi; rewrite <- Ha, <- Hb; by apply Heq|by rewrite <- Ha, <- Hb].
- split; [intros i Hi; rewrite Ha, Hb; by apply Heq|by rewrite Ha, Hb].
Qed.

Lemma compareVersion_greater (v1 v2 : string) :
  compareVersion v1 v2 = 1
  <-> exists k : nat,
        (forall i : nat, (i < k)%nat -> valueAt v1 i = valueAt v2 i)
        /\ valueAt v2 k < valueAt v1 k.
Proof.
assert (H : compareVersion v1 v2 = 1 <-> compareVersion v2 v1 = -1)
  by (rewrite (compareVersion_flip v1 v2); lia).
rewrite H, compareVersion_less.
split; intros (k & Heq & Hk); exists k; (split; [|done]);
  intros i Hi; symmetry; by apply Heq.
Qed.

End OrderFacts.

Section SplitFacts.

Import Strings.

Lemma Count_app (a b : string) (c : ascii) :
  Count (a +:+ b) c = (Count a c + Count b c)%nat.
Proof.
induction a as [|x a IH]; rewrite ?append_nil, ?append_cons; cbn [Count]; [done|].
rewrite IH. by destruct (Ascii.eqb x c).
Qed.

Lemma Count_cons_zero (x : ascii) (a : string) (c : ascii) :
  Count (String x a) c = O -> Ascii.eqb x c = false /\ Count a c = O.
Proof. cbn [Count]. by destruct (Ascii.eqb x c). Qed.

Lemma IndexByte_cut (a b : string) (c : ascii) :
  Count a c = O -> IndexByte (a +:+ String c b) c = Some (String.length a).
Proof.
induction a as [|x a IH]; rewrite ?append_nil, ?append_cons; cbn [IndexByte String.length].
- by rewrite Ascii.eqb_refl.
- intros [-> Ha]%Count_cons_zero. by rewrite (IH Ha).
Qed.

Lemma Split_lacks (s : string) (c : ascii) : Count s c = O -> Split s c = [s].
Proof. intros H. unfold Split. by rewrite H. Qed.

(** Cutting at the first separator. *)
Lemma Split_cut (a b : string) (c : ascii) :
  Count a c = O -> Split (a +:+ String c b) c = a :: Split b c.
Proof.
intros Ha. unfold Split. rewrite Count_app, Ha. cbn [Count Nat.add].
rewrite Ascii.eqb_refl. cbn [genericSplit_loop].
by rewrite (IndexByte_cut a b c Ha), sliceTo_app, sliceFrom_app.
Qed.

Lemma Count_cut (a : string) (c : ascii) (k : nat) :
  Count a c = S k ->
  exists pre rest : string,
    a = pre +:+ String c rest /\ Count pre c = O /\ Count rest c = k.
Proof.
induction a as [|x a IH]; cbn [Count]; [done|].
destruct (Ascii.eqb_spec x c) as [->|Hne].
- intros [= Hk]. by exists EmptyString, a.
- intros Hk. destruct (IH Hk) as (pre & rest & -> & Hpre & Hrest).
  exists (String x pre), rest. rewrite append_cons. cbn [Count].
  by destruct (Ascii.eqb_spec x c).
Qed.

(** Splitting distributes over joining with the separator. *)
Lemma Split_app_sep (a b : string) (c : ascii) :
  Split (a +:+ String c b) c = Split a c ++ Split b c.
Proof.
remember (Count a c) as n eqn:Hn. symmetry in Hn.
revert a Hn. induction n as [|n IH]; intros a Hn.
- by rewrite (Split_cut a b c Hn), (Split_lacks a c Hn).
- destruct (Count_cut a c n Hn) as (pre & rest & -> & Hpre & Hrest).
  rewrite append_assoc, append_cons.
  rewrite (Split_cut pre _ c Hpre), (Split_cut pre rest c Hpre).
  by rewrite (IH rest Hrest).
Qed.

End SplitFacts.

Section OrderTheorems.

Import Version.

Lemma compareVersion_le_cases (v1 v2 : string) :
  compareVersion v1 v2 <= 0 <-> compareVersion v1 v2 = 0 \/ compareVersion v1 v2 = -1.
Proof. destruct (compareVersion_range v1 v2) as [H|[H|H]]; lia. Qed.

Lemma compareVersion_trans_le (a b c : string) :
  compareVersion a b <= 0 -> compareVersion b c <= 0 ->
  compareVersion a c <= 0
  /\ (compareVersion a b < 0 \/ compareVersion b c < 0 -> compareVersion a c < 0).
Proof.
rewrite !compareVersion_le_cases.
intros [Hab|Hab] [Hbc|Hbc].
- assert (Hac : compareVersion a c = 0).
  { apply compareVersion_zero. intros i.
    rewrite (proj1 (compareVersion_zero a b) Hab i).
    apply (proj1 (compareVersion_zero b c) Hbc i). }
  lia.
- assert (Hac : compareVersion a c = -1).
  { apply compareVersion_less.
    apply compareVersion_less in Hbc as (k & Heq & Hk). exists k.
    pose proof (proj1 (compareVersion_zero a b) Hab) as Hz.
    split; [intros i Hi; rewrite Hz; by apply Heq|by rewrite Hz]. }
  lia.
- assert (Hac : compareVersion a c = -1).
  { apply compareVersion_less.
    apply compareVersion_less in Hab as (k & Heq & Hk). exists k.
    pose proof (proj1 (compareVersion_zero b c) Hbc) as Hz.
    split; [intros i Hi; rewrite <- Hz; by apply Heq|by rewrite <- Hz]. }
  lia.
- assert (Hac : compareVersion a c = -1).
  { apply compareVersion_less.
    apply compareVersion_less in Hab as (k1 & Heq1 & Hk1).
    apply compareVersion_less in Hbc as (k2 & Heq2 & Hk2).
    destruct (Nat.lt_trichotomy k1 k2) as [Hlt|[->|Hgt]].
    - exists k1. split.
      + intros i Hi. rewrite (Heq1 i Hi). apply Heq2. lia.
      + rewrite <- (Heq2 k1 Hlt). done.
    - exists k2. split.
      + intros i Hi. rewrite (Heq1 i Hi). by apply Heq2.
      + lia.
    - exists k2. split.
      + intros i Hi. rewrite (Heq1 i ltac:(lia)). by apply Heq2.
      + rewrite (Heq1 k2 Hgt). done. }
  lia.
Qed.

(** The result is a function of the segment values alone. *)
Lemma compareVersion_ext (a a' b b' : string) :
  (forall i : nat, valueAt a i = valueAt a' i) ->
  (forall i : nat, valueAt b i = valueAt b' i) ->
  compareVersion a b = compareVersion a' b'.
Proof.
intros Ha Hb.
destruct (compareVersion_range a b) as [H|[H|H]]; rewrite H; symmetry.
- apply compareVersion_less. apply compareVersion_less in H as (k & Heq & Hk).
  exists k. split; [intros i Hi; rewrite <- Ha, <- Hb; by apply Heq|by rewrite <- Ha, <- Hb].
- apply compareVersion_zero. intros i. rewrite <- Ha, <- Hb.
  by apply compareVersion_zero.
- apply compareVersion_greater. apply compareVersion_greater in H as (k & Heq & Hk).
  exists k. split; [intros i Hi; rewrite <- Ha, <- Hb; by apply Heq|by rewrite <- Ha, <- Hb].
Qed.

Lemma valueAt_app_sep (v s : string) (i : nat) :
  (forall j : nat, valueAt s j = 0) ->
  valueAt (v +:+ String "." s) i = valueAt v i.
Proof.
intros Hs. unfold valueAt, segmentValues in *.
rewrite Split_app_sep, fmap_app.
destruct (Nat.lt_ge_cases i (length (parsed <$> Strings.Split v "."))) as [Hlt|Hge].
- by rewrite app_nth1.
- rewrite app_nth2 by done. rewrite Hs. by rewrite nth_overflow.
Qed.

End OrderTheorems.

Section PrintedTriples.

Import Numeral Strconv Strings Version.

Lemma valueAt_zero (s : string) :
  forallb (fun z => z =? 0) (segmentValues s) = true ->
  forall j : nat, valueAt s j = 0.
Proof.
intros Hall j. unfold valueAt.
destruct (nth_in_or_default j (segmentValues s) 0) as [Hin| ->]; [|done].
rewrite forallb_forall in Hall. specialize (Hall _ Hin). lia.
Qed.

Lemma FormatInt_negative (n : Z) :
  minInt64 <= n < 0 ->
  exists d : string,
    FormatInt n = String "-" d
    /\ allDigits d = true /\ d <> EmptyString /\ digitsValue d = - n.
Proof.
unfold minInt64. change (- 2 ^ 63) with (-9223372036854775808). intros Hn.
unfold FormatInt. destruct (Z.ltb_spec n 0); [|lia].
assert (Hu : uint64 (- n) = - n).
{ unfold uint64. change (2 ^ 64) with 18446744073709551616. apply Z.mod_small. lia. }
rewrite Hu.
destruct (formatBits_loop_spec 64 (- n) EmptyString) as (d & Hd & Hall & Hne & Hval).
{ assert (2 ^ 63 < 10 ^ Z.of_nat 65) by (vm_compute; done).
  change (2 ^ 63) with 9223372036854775808 in *. lia. }
exists d. rewrite Hd, append_empty_r. done.
Qed.

(** What [%d] prints for an [int] parses back to it with [Atoi]. *)
Lemma parsed_FormatInt (n : Z) : isInt n = true -> parsed (FormatInt n) = n.
Proof.
unfold isInt. intros Hn.
destruct (Z.lt_ge_cases n 0) as [Hneg|Hpos].
- destruct (FormatInt_negative n ltac:(lia)) as (d & -> & Hall & Hne & Hval).
  rewrite parsed_intValue. unfold VersionSpec.intValue, decimalValue.
  rewrite is_numeric_unsigned.
  change (unsignedPart (String "-" d)) with d.
  change (isNegative (String "-" d)) with true.
  rewrite Hall. destruct d as [|c d']; [done|]. cbn [String.eqb negb andb].
  rewrite Hval. unfold VersionSpec.clamp. lia.
- destruct (FormatInt_nonneg n ltac:(lia)) as (Hall & Hne & Hval).
  rewrite parsed_digits by (done || lia). done.
Qed.

Lemma FormatInt_lacks_dot (n : Z) : isInt n = true -> Count (FormatInt n) "." = O.
Proof.
unfold isInt. intros Hn.
destruct (Z.lt_ge_cases n 0) as [Hneg|Hpos].
- destruct (FormatInt_negative n ltac:(lia)) as (d & -> & Hall & _ & _).
  cbn [Count]. change (Ascii.eqb "-" ".") with false. by apply Count_digits.
- destruct (FormatInt_nonneg n ltac:(lia)) as (Hall & _ & _). by apply Count_digits.
Qed.

Lemma Split_VersionType_String (v : Metadata.VersionType) :
  intTriple v = true ->
  Split (Metadata.VersionType_String v) "."
  = [FormatInt (Metadata.Major v); FormatInt (Metadata.Minor v);
     FormatInt (Metadata.Build v)].
Proof.
unfold intTriple. intros [[Ha Hb]%andb_true_iff Hc]%andb_true_iff.
unfold Metadata.VersionType_String.
change ("." +:+ FormatInt (Metadata.Minor v) +:+ "." +:+ FormatInt (Metadata.Build v))
  with (String "." (FormatInt (Metadata.Minor v)
                    +:+ String "." (FormatInt (Metadata.Build v)))).
rewrite (Split_cut _ _ _ (FormatInt_lacks_dot _ Ha)).
rewrite (Split_cut _ _ _ (FormatInt_lacks_dot _ Hb)).
by rewrite (Split_lacks _ _ (FormatInt_lacks_dot _ Hc)).
Qed.

Lemma segmentValues_VersionType_String (v : Metadata.VersionType) :
  intTriple v = true ->
  segmentValues (Metadata.VersionType_String v)
  = [Metadata.Major v; Metadata.Minor v; Metadata.Build v].
Proof.
intros Hv. unfold segmentValues. rewrite (Split_VersionType_String v Hv).
unfold intTriple in Hv. apply andb_true_iff in Hv as [[Ha Hb]%andb_true_iff Hc].
cbn [fmap list_fmap]. by rewrite !parsed_FormatInt.
Qed.

Lemma compareVersion_triples (a b : Metadata.VersionType) :
  intTriple a = true -> intTriple b = true ->
  compareVersion (Metadata.VersionType_String a) (Metadata.VersionType_String b)
  = VersionSpec.compareSegments
      [Metadata.Major a; Metadata.Minor a; Metadata.Build a]
      [Metadata.Major b; Metadata.Minor b; Metadata.Build b].
Proof.
intros Ha Hb. rewrite compareVersion_unfold. unfold VersionSpec.compare_with.
fold (segmentValues (Metadata.VersionType_String a)).
fold (segmentValues (Metadata.VersionType_String b)).
by rewrite (segmentValues_VersionType_String a Ha), (segmentValues_VersionType_String b Hb).
Qed.

End PrintedTriples.

Section NamespaceFacts.

Import Strings.

Lemma length_append (a b : string) :
  String.length (a +:+ b) = (String.length a + String.length b)%nat.
Proof.
induction a as [|x a IH]; rewrite ?append_nil, ?append_cons; cbn [String.length]; [done|].
by rewrite IH.
Qed.

Lemma LastIndexByte_None (s : string) (c : ascii) :
  LastIndexByte s c = None <-> Count s c = O.
Proof.
induction s as [|x s IH]; cbn [LastIndexByte Count]; [done|].
destruct (LastIndexByte s c) as [i|].
- destruct (Ascii.eqb x c); split; try done.
  intros H. by apply IH in H.
- destruct (Ascii.eqb x c); split; try done. intros _. by apply IH.
Qed.

Lemma LastIndexByte_cut (p r : string) (c : ascii) :
  Count r c = O -> LastIndexByte (p +:+ String c r) c = Some (String.length p).
Proof.
intros Hr%LastIndexByte_None.
induction p as [|x p IH]; rewrite ?append_nil, ?append_cons;
  cbn [LastIndexByte String.length].
- by rewrite Hr, Ascii.eqb_refl.
- by rewrite IH.
Qed.

Lemma LastIndexByte_Some (s : string) (c : ascii) (i : nat) :
  LastIndexByte s c = Some i ->
  exists r : string, s = sliceTo i s +:+ String c r /\ Count r c = O.
Proof.
revert i. induction s as [|x s IH]; intros i; cbn [LastIndexByte]; [done|].
destruct (LastIndexByte s c) as [j|] eqn:Hj.
- intros [= <-]. destruct (IH j eq_refl) as (r & Hs & Hr).
  exists r. cbn [sliceTo]. rewrite append_cons. by rewrite <- Hs.
- destruct (Ascii.eqb_spec x c) as [->|]; [|done].
  intros [= <-]. exists s. split; [done|]. by apply LastIndexByte_None.
Qed.

End NamespaceFacts.

Section ContextFacts.

Import CoreConfig Authentication.

Lemma iamBaseEndpoint_config (w w' : World) :
  environ w' = environ w -> rwIAMEndpoint (config w') = rwIAMEndpoint (config w) ->
  iamBaseEndpoint w' = iamBaseEndpoint w.
Proof. unfold iamBaseEndpoint. by intros -> ->. Qed.

Lemma RefreshIAMToken_world (w : World) :
  exists c : ReadWriter,
    (snd (PluginContext.RefreshIAMToken w) = w
     \/ snd (PluginContext.RefreshIAMToken w) = stored c (iamCall w) w)
    /\ besideIAMTokens c = besideIAMTokens (config w)
    /\ besideIAMTokens (config (snd (PluginContext.RefreshIAMToken w)))
       = besideIAMTokens (config w).
Proof.
rewrite RefreshIAMToken_unfold. fold (iamCall w).
destruct (String.eqb (iamBaseEndpoint w) EmptyString).
- exists (config w). auto.
- cbv zeta. destruct (authService w (iamCall w)) as [token|err].
  + eexists. split; [right; reflexivity|]. done.
  + exists (config w). split; [right; reflexivity|]. done.
Qed.

Lemma RefreshUAAToken_world (w : World) :
  exists c : ReadWriter,
    (snd (CF.RefreshUAAToken w) = w
     \/ snd (CF.RefreshUAAToken w) = stored c (uaaCall w) w)
    /\ besideUAATokens c = besideUAATokens (config w)
    /\ besideUAATokens (config (snd (CF.RefreshUAAToken w)))
       = besideUAATokens (config w).
Proof.
rewrite RefreshUAAToken_unfold. fold (uaaCall w).
destruct (cfHasAPIEndpoint (rwCFConfig (config w))).
- cbv zeta. destruct (authService w (uaaCall w)) as [token|err].
  + eexists. split; [right; reflexivity|]. done.
  + exists (config w). split; [right; reflexivity|]. done.
- exists (config w). auto.
Qed.

End ContextFacts.

(** * Properties of the code beside the claims *)

Import Version.

(** X1.  Swapping the arguments of [compareVersion] negates the result:
    what compares lower one way compares higher the other way, and equal
    stays equal. *)
Theorem compareVersion_antisymmetric (v1 v2 : string) :
  compareVersion v2 v1 = - compareVersion v1 v2.
Proof.
destruct (compareVersion_padded v1 v2) as (a & b & _ & -> & -> & _).
apply compareSegments_flip.
Qed.

(** X2.  [compareVersion] is decided by the first index at which the
    segment values of the two strings differ, a missing segment having
    the value 0: the result is 0 when there is no such index, -1 when
    the left value is the smaller one there, 1 when it is the larger. *)
Theorem compareVersion_first_difference (v1 v2 : string) :
  (compareVersion v1 v2 = 0 <-> forall i : nat, valueAt v1 i = valueAt v2 i)
  /\ (compareVersion v1 v2 = -1
      <-> exists k : nat,
            (forall i : nat, (i < k)%nat -> valueAt v1 i = valueAt v2 i)
            /\ valueAt v1 k < valueAt v2 k)
  /\ (compareVersion v1 v2 = 1
      <-> exists k : nat,
            (forall i : nat, (i < k)%nat -> valueAt v1 i = valueAt v2 i)
            /\ valueAt v2 k < valueAt v1 k).
Proof.
split; [apply compareVersion_zero|].
split; [apply compareVersion_less|apply compareVersion_greater].
Qed.

(** X3.  [compareVersion] is transitive: if [a] is not above [b] and [b]
    is not above [c], then [a] is not above [c], and [a] is below [c] as
    soon as one of the two steps is strict. *)
Theorem compareVersion_transitive (a b c : string) :
  compareVersion a b <= 0 -> compareVersion b c <= 0 ->
  compareVersion a c <= 0
  /\ (compareVersion a b < 0 \/ compareVersion b c < 0 -> compareVersion a c < 0).
Proof. apply compareVersion_trans_le. Qed.

Lemma compareVersion_transitive_witness :
  compareVersion "0.9" "1.0.0" <= 0
  /\ (compareVersion "0.9" "1" < 0 \/ compareVersion "1" "1.0.0" < 0 ->
      compareVersion "0.9" "1.0.0" < 0).
Proof.
apply (compareVersion_transitive "0.9" "1" "1.0.0"); vm_compute; discriminate.
Defined.

(** X4.  Segments that parse as 0 at the end of a version string do not
    count: appending "." and a string all of whose segments parse as 0
    (such as "0", "0.0", the empty string or "x") to either argument
    leaves the result of [compareVersion] as it is. *)
Theorem compareVersion_trailing_zeros (v s w : string) :
  forallb (fun z => z =? 0) (segmentValues s) = true ->
  compareVersion (v +:+ "." +:+ s) w = compareVersion v w
  /\ compareVersion w (v +:+ "." +:+ s) = compareVersion w v.
Proof.
intros Hs. pose proof (valueAt_zero s Hs) as Hz. change ("." +:+ s) with (String "." s).
split; apply compareVersion_ext; intros i; try done; by apply valueAt_app_sep.
Qed.

Lemma compareVersion_trailing_zeros_witness :
  (compareVersion ("1.2" +:+ "." +:+ "0.0") "1.10" = compareVersion "1.2" "1.10"
   /\ compareVersion "1.10" ("1.2" +:+ "." +:+ "0.0") = compareVersion "1.10" "1.2")
  /\ (compareVersion ("3" +:+ "." +:+ "") "3.0.1" = compareVersion "3" "3.0.1"
      /\ compareVersion "3.0.1" ("3" +:+ "." +:+ "") = compareVersion "3.0.1" "3").
Proof.
split.
- apply (compareVersion_trailing_zeros "1.2" "0.0" "1.10"). vm_compute. reflexivity.
- apply (compareVersion_trailing_zeros "3" "" "3.0.1"). vm_compute. reflexivity.
Defined.

(** X5.  Printing a version triple of [int]s and reading it back gives
    the triple: [VersionType.String] splits on "." into exactly three
    segments, and they parse to [Major], [Minor] and [Build], negative
    components included. *)
Theorem VersionType_String_roundtrip (v : Metadata.VersionType) :
  intTriple v = true ->
  length (Strings.Split (Metadata.VersionType_String v) ".") = 3%nat
  /\ segmentValues (Metadata.VersionType_String v)
     = [Metadata.Major v; Metadata.Minor v; Metadata.Build v].
Proof.
intros Hv. split.
- by rewrite (Split_VersionType_String v Hv).
- by apply segmentValues_VersionType_String.
Qed.

Lemma VersionType_String_roundtrip_witness :
  length (Strings.Split (Metadata.VersionType_String (Metadata.mkVersionType 12 (-3) 405)) ".")
  = 3%nat
  /\ segmentValues (Metadata.VersionType_String (Metadata.mkVersionType 12 (-3) 405))
     = [12; -3; 405].
Proof.
apply (VersionType_String_roundtrip (Metadata.mkVersionType 12 (-3) 405)).
vm_compute. reflexivity.
Defined.

(** X6.  On the printed forms of two version triples of [int]s,
    [compareVersion] is the lexicographic order of the triples: 0 exactly
    when the triples are equal, -1 exactly when the first is the smaller
    one, 1 exactly when it is the larger one. *)
Theorem compareVersion_printed_triples (a b : Metadata.VersionType) :
  intTriple a = true -> intTriple b = true ->
  (compareVersion (Metadata.VersionType_String a) (Metadata.VersionType_String b) = 0
   <-> a = b)
  /\ (compareVersion (Metadata.VersionType_String a) (Metadata.VersionType_String b) = -1
      <-> tripleLt a b)
  /\ (compareVersion (Metadata.VersionType_String a) (Metadata.VersionType_String b) = 1
      <-> tripleLt b a).
Proof.
intros Ha Hb. rewrite (compareVersion_triples a b Ha Hb).
unfold tripleLt. destruct a as [a1 a2 a3], b as [b1 b2 b3].
cbn [VersionSpec.compareSegments Metadata.Major Metadata.Minor Metadata.Build].
assert (Heq : Metadata.mkVersionType a1 a2 a3 = Metadata.mkVersionType b1 b2 b3
              <-> a1 = b1 /\ a2 = b2 /\ a3 = b3).
{ split; [by intros [= -> -> ->]|by intros (-> & -> & ->)]. }
rewrite Heq.
destruct (Z.gtb_spec a1 b1), (Z.ltb_spec a1 b1),
         (Z.gtb_spec a2 b2), (Z.ltb_spec a2 b2),
         (Z.gtb_spec a3 b3), (Z.ltb_spec a3 b3); lia.
Qed.

Lemma compareVersion_printed_triples_witness :
  compareVersion (Metadata.VersionType_String (Metadata.mkVersionType 1 9 0))
                 (Metadata.VersionType_String (Metadata.mkVersionType 1 10 0)) = -1.
Proof.
apply (proj1 (proj2 (compareVersion_printed_triples
                       (Metadata.mkVersionType 1 9 0) (Metadata.mkVersionType 1 10 0)
                       eq_refl eq_refl))).
unfold tripleLt. simpl. lia.
Defined.

(** X7.  [ParentName] cuts a namespace name at its last space.  A name
    without a space has the empty parent; any other name is its parent,
    a space and a last segment without a space; the parent of
    [p ++ " " ++ child] is [p] when [child] has no space; and the parent
    of a non-empty name is strictly shorter than the name, so going up
    from parent to parent ends at the root. *)
Theorem ParentName_last_space (n : Metadata.Namespace) :
  (lacks " " (Metadata.nsName n) = true -> Metadata.ParentName n = EmptyString)
  /\ (lacks " " (Metadata.nsName n) = false ->
      exists child : string,
        Metadata.nsName n = Metadata.ParentName n +:+ " " +:+ child
        /\ lacks " " child = true)
  /\ (forall p child : string,
        Metadata.nsName n = p +:+ " " +:+ child -> lacks " " child = true ->
        Metadata.ParentName n = p)
  /\ (Metadata.nsName n <> EmptyString ->
      (String.length (Metadata.ParentName n) < String.length (Metadata.nsName n))%nat).
Proof.
unfold lacks, Metadata.ParentName.
destruct (Strings.LastIndexByte (Metadata.nsName n) " ") as [i|] eqn:Hi.
- destruct (LastIndexByte_Some _ _ _ Hi) as (r & Hs & Hr).
  assert (Hcount : Strings.Count (Metadata.nsName n) " " <> O).
  { intros H%LastIndexByte_None. congruence. }
  split; [by intros H%Nat.eqb_eq|].
  split.
  { intros _. exists r. split; [exact Hs|by apply Nat.eqb_eq]. }
  split.
  { intros p child Hn Hc%Nat.eqb_eq.
    change (" " +:+ child) with (String " " child) in Hn.
    rewrite Hn, (LastIndexByte_cut p child " " Hc) in Hi.
    injection Hi as <-. rewrite Hn. apply sliceTo_app. }
  intros _. rewrite Hs at 2. rewrite length_append. cbn [String.length]. lia.
- apply LastIndexByte_None in Hi.
  split; [done|].
  split; [intros H%Nat.eqb_neq; done|].
  split.
  { intros p child Hn _. rewrite Hn in Hi.
    change (" " +:+ child) with (String " " child) in Hi.
    rewrite Count_app in Hi.
    change (Strings.Count (String " " child) " ") with (S (Strings.Count child " ")) in Hi.
    lia. }
  intros Hne. destruct (Metadata.nsName n); [done|]. cbn [String.length]. lia.
Qed.

Lemma ParentName_last_space_witness :
  Metadata.ParentName (Metadata.mkNamespace "service plan offering" "") = "service plan"
  /\ Metadata.ParentName (Metadata.mkNamespace "service" "") = EmptyString.
Proof.
split.
- apply (proj1 (proj2 (proj2 (ParentName_last_space
                                (Metadata.mkNamespace "service plan offering" ""))))
           "service plan" "offering"); reflexivity.
- apply (proj1 (ParentName_last_space (Metadata.mkNamespace "service" ""))). reflexivity.
Defined.

(** X8.  [CLIName] never returns the empty string: it is the value of
    the environment variable when that is set and not empty, and "bx"
    when the variable is not set or empty; the world is left as it is. *)
Theorem CLIName_never_empty (ENV_BLUEMIX_CLI : string) (w : World) :
  fst (PluginContext.CLIName ENV_BLUEMIX_CLI w) <> EmptyString
  /\ snd (PluginContext.CLIName ENV_BLUEMIX_CLI w) = w
  /\ (forall v : string,
        environ w !! ENV_BLUEMIX_CLI = Some v -> v <> EmptyString ->
        fst (PluginContext.CLIName ENV_BLUEMIX_CLI w) = v)
  /\ (environ w !! ENV_BLUEMIX_CLI = None
      \/ environ w !! ENV_BLUEMIX_CLI = Some EmptyString ->
      fst (PluginContext.CLIName ENV_BLUEMIX_CLI w) = "bx").
Proof.
unfold PluginContext.CLIName, bind, Getenv, ret.
destruct (environ w !! ENV_BLUEMIX_CLI) as [v|]; cbn [default from_option]; unfold id.
- destruct (String.eqb_spec v EmptyString) as [->|Hne]; cbn [fst snd].
  + repeat split; try done. by intros v [= <-].
  + repeat split; try done.
    * by intros v' [= <-].
    * intros [|[= ->]]; done.
- cbn [fst snd]. repeat split; done.
Qed.

Lemma CLIName_never_empty_witness :
  fst (PluginContext.CLIName "IAM_ENDPOINT" overriddenWorld) = "https://iam.test"
  /\ fst (PluginContext.CLIName "BLUEMIX_CLI" overriddenWorld) = "bx".
Proof.
split.
- apply (proj1 (proj2 (proj2 (CLIName_never_empty "IAM_ENDPOINT" overriddenWorld)))).
  + vm_compute. reflexivity.
  + discriminate.
- apply (proj2 (proj2 (proj2 (CLIName_never_empty "BLUEMIX_CLI" overriddenWorld)))).
  left. vm_compute. reflexivity.
Defined.

(** X9.  For a plugin whose SDK version compares below "0.1.1" the
    plugin-level [HasAPIEndpoint] is [HasTargetedCF]: both say whether
    the CF API endpoint is set.  For any other plugin [HasAPIEndpoint]
    says whether the platform endpoint is set, whatever the CF endpoint
    is. *)
Theorem HasAPIEndpoint_legacy_is_HasTargetedCF (w : World) :
  (compareVersion (CoreConfig.rwSDKVersion (config w)) "0.1.1" < 0 ->
   PluginContext.HasAPIEndpoint w = PluginContext.HasTargetedCF w)
  /\ (0 <= compareVersion (CoreConfig.rwSDKVersion (config w)) "0.1.1" ->
      PluginContext.HasAPIEndpoint w
      = (negb (String.eqb (platformEndpoint w) EmptyString), w)).
Proof.
unfold PluginContext.HasAPIEndpoint, PluginContext.HasTargetedCF, CF.HasAPIEndpoint,
  bind, ret, read, CoreConfig.cfHasAPIEndpoint.
rewrite APIEndpoint_unfold. fold (cfEndpoint w).
destruct (Z.ltb_spec (compareVersion (CoreConfig.rwSDKVersion (config w)) "0.1.1") 0);
  split; intros; (done || lia).
Qed.

Lemma HasAPIEndpoint_legacy_is_HasTargetedCF_witness :
  PluginContext.HasAPIEndpoint (sampleWorld "0.1.0" refusingService)
  = PluginContext.HasTargetedCF (sampleWorld "0.1.0" refusingService).
Proof.
apply (proj1 (HasAPIEndpoint_legacy_is_HasTargetedCF (sampleWorld "0.1.0" refusingService))).
vm_compute. reflexivity.
Defined.

(** X10.  Whatever the outcome, [RefreshIAMToken] makes at most one
    exchange, leaves the environment alone and changes no field of the
    configuration beside the two IAM tokens; so the SDK version, the
    endpoints and the UAA tokens are as before, and [APIEndpoint] answers
    as before. *)
Theorem RefreshIAMToken_frame (w : World) :
  environ (snd (PluginContext.RefreshIAMToken w)) = environ w
  /\ (authCalls (snd (PluginContext.RefreshIAMToken w)) = authCalls w
      \/ authCalls (snd (PluginContext.RefreshIAMToken w)) = authCalls w ++ [iamCall w])
  /\ besideIAMTokens (config (snd (PluginContext.RefreshIAMToken w)))
     = besideIAMTokens (config w)
  /\ fst (PluginContext.APIEndpoint (snd (PluginContext.RefreshIAMToken w)))
     = fst (PluginContext.APIEndpoint w).
Proof.
destruct (RefreshIAMToken_world w) as (c & Hw & _ & Hc).
assert (Hfields := Hc). unfold besideIAMTokens in Hfields.
injection Hfields as Hsdk Hapi _ _ _ _ Hcf.
split; [by destruct Hw as [-> | ->]|].
split; [destruct Hw as [-> | ->]; auto|].
split; [exact Hc|].
rewrite !APIEndpoint_unfold. unfold cfEndpoint, platformEndpoint. cbn [fst].
by rewrite Hsdk, Hapi, Hcf.
Qed.

(** X11.  Whatever the outcome, [RefreshUAAToken] makes at most one
    exchange, leaves the environment alone and changes no field of the
    configuration beside the two UAA tokens; so the IAM tokens and every
    endpoint are as before, and [APIEndpoint] and [HasTargetedCF] answer
    as before. *)
Theorem RefreshUAAToken_frame (w : World) :
  environ (snd (CF.RefreshUAAToken w)) = environ w
  /\ (authCalls (snd (CF.RefreshUAAToken w)) = authCalls w
      \/ authCalls (snd (CF.RefreshUAAToken w)) = authCalls w ++ [uaaCall w])
  /\ besideUAATokens (config (snd (CF.RefreshUAAToken w))) = besideUAATokens (config w)
  /\ fst (PluginContext.APIEndpoint (snd (CF.RefreshUAAToken w)))
     = fst (PluginContext.APIEndpoint w)
  /\ fst (PluginContext.HasTargetedCF (snd (CF.RefreshUAAToken w)))
     = fst (PluginContext.HasTargetedCF w).
Proof.
destruct (RefreshUAAToken_world w) as (c & Hw & _ & Hc).
assert (Hfields := Hc). unfold besideUAATokens in Hfields.
injection Hfields as Hsdk Hapi _ _ _ _ _ _ Hcf _.
split; [by destruct Hw as [-> | ->]|].
split; [destruct Hw as [-> | ->]; auto|].
split; [exact Hc|].
split.
- rewrite !APIEndpoint_unfold. unfold cfEndpoint, platformEndpoint. cbn [fst].
  by rewrite Hsdk, Hapi, Hcf.
- unfold PluginContext.HasTargetedCF, CF.HasAPIEndpoint, read, CoreConfig.cfHasAPIEndpoint.
  cbn [fst]. by rewrite Hcf.
Qed.

Section RotationFacts.

Import CoreConfig Authentication.

Lemma RefreshIAMToken_granted (w : World) (token : Token) :
  iamBaseEndpoint w <> EmptyString -> authService w (iamCall w) = inl token ->
  PluginContext.RefreshIAMToken w
  = ((TokenString token, None),
     stored (setIAMRefreshToken (RefreshToken token)
               (setIAMToken (TokenString token) (config w))) (iamCall w) w).
Proof.
intros Hb%eqb_empty_false Hs. rewrite RefreshIAMToken_unfold, Hb. cbv zeta.
fold (iamCall w). by rewrite Hs.
Qed.

Lemma RefreshIAMToken_refused (w : World) (err : Failure) :
  iamBaseEndpoint w <> EmptyString -> authService w (iamCall w) = inr err ->
  PluginContext.RefreshIAMToken w
  = ((EmptyString, Some (AuthenticationError err)), called (iamCall w) w).
Proof.
intros Hb%eqb_empty_false Hs. rewrite RefreshIAMToken_unfold, Hb. cbv zeta.
fold (iamCall w). by rewrite Hs.
Qed.

Lemma RefreshUAAToken_granted (w : World) (token : Token) :
  cfEndpoint w <> EmptyString -> authService w (uaaCall w) = inl token ->
  CF.RefreshUAAToken w
  = ((TokenString token, None),
     stored (setCFConfig
               (setUAARefreshToken (RefreshToken token)
                  (setUAAToken (TokenString token) (rwCFConfig (config w))))
               (config w)) (uaaCall w) w).
Proof.
intros Hb%eqb_empty_false Hs. rewrite RefreshUAAToken_unfold.
unfold cfHasAPIEndpoint. fold (cfEndpoint w). rewrite Hb. cbn [negb]. cbv zeta.
fold (uaaCall w). by rewrite Hs.
Qed.

Lemma RefreshUAAToken_refused (w : World) (err : Failure) :
  cfEndpoint w <> EmptyString -> authService w (uaaCall w) = inr err ->
  CF.RefreshUAAToken w
  = ((EmptyString, Some (AuthenticationError err)), called (uaaCall w) w).
Proof.
intros Hb%eqb_empty_false Hs. rewrite RefreshUAAToken_unfold.
unfold cfHasAPIEndpoint. fold (cfEndpoint w). rewrite Hb. cbn [negb]. cbv zeta.
fold (uaaCall w). by rewrite Hs.
Qed.

Lemma RefreshIAMToken_calls (w : World) :
  iamBaseEndpoint w <> EmptyString ->
  authCalls (snd (PluginContext.RefreshIAMToken w)) = authCalls w ++ [iamCall w].
Proof.
intros Hb. destruct (authService w (iamCall w)) as [token|err] eqn:Hs.
- by rewrite (RefreshIAMToken_granted w token Hb Hs).
- by rewrite (RefreshIAMToken_refused w err Hb Hs).
Qed.

Lemma RefreshUAAToken_calls (w : World) :
  cfEndpoint w <> EmptyString ->
  authCalls (snd (CF.RefreshUAAToken w)) = authCalls w ++ [uaaCall w].
Proof.
intros Hb. destruct (authService w (uaaCall w)) as [token|err] eqn:Hs.
- by rewrite (RefreshUAAToken_granted w token Hb Hs).
- by rewrite (RefreshUAAToken_refused w err Hb Hs).
Qed.

End RotationFacts.

(** X12.  Refresh tokens rotate.  After a successful [RefreshIAMToken]
    the next [RefreshIAMToken] presents, at the same token endpoint, the
    refresh token that the first exchange returned; after a failed one
    the next call repeats the very same exchange.  The same holds for
    [RefreshUAAToken]. *)
Theorem refresh_token_rotation (w : World) :
  (forall token : Authentication.Token,
      iamBaseEndpoint w <> EmptyString -> authService w (iamCall w) = inl token ->
      authCalls (snd (PluginContext.RefreshIAMToken (snd (PluginContext.RefreshIAMToken w))))
      = authCalls w
          ++ [iamCall w;
              Authentication.IAMRefresh (iamBaseEndpoint w +:+ "/identity/token")
                (Authentication.RefreshToken token)])
  /\ (forall err : Authentication.Failure,
        iamBaseEndpoint w <> EmptyString -> authService w (iamCall w) = inr err ->
        authCalls (snd (PluginContext.RefreshIAMToken
                          (snd (PluginContext.RefreshIAMToken w))))
        = authCalls w ++ [iamCall w; iamCall w]
        /\ fst (PluginContext.RefreshIAMToken (snd (PluginContext.RefreshIAMToken w)))
           = fst (PluginContext.RefreshIAMToken w))
  /\ (forall token : Authentication.Token,
        cfEndpoint w <> EmptyString -> authService w (uaaCall w) = inl token ->
        authCalls (snd (CF.RefreshUAAToken (snd (CF.RefreshUAAToken w))))
        = authCalls w
            ++ [uaaCall w;
                Authentication.UAARefresh
                  (CoreConfig.cfAuthenticationEndpoint (CoreConfig.rwCFConfig (config w)))
                  (Authentication.RefreshToken token)])
  /\ (forall err : Authentication.Failure,
        cfEndpoint w <> EmptyString -> authService w (uaaCall w) = inr err ->
        authCalls (snd (CF.RefreshUAAToken (snd (CF.RefreshUAAToken w))))
        = authCalls w ++ [uaaCall w; uaaCall w]
        /\ fst (CF.RefreshUAAToken (snd (CF.RefreshUAAToken w)))
           = fst (CF.RefreshUAAToken w)).
Proof.
split; [|split; [|split]].
- intros token Hb Hs. rewrite (RefreshIAMToken_granted w token Hb Hs). cbn [snd].
  rewrite RefreshIAMToken_calls by done. cbn [stored authCalls].
  by rewrite <- app_assoc.
- intros err Hb Hs. rewrite (RefreshIAMToken_refused w err Hb Hs). cbn [snd fst].
  rewrite (RefreshIAMToken_refused (called (iamCall w) w) err) by done.
  cbn [snd fst called authCalls].
  split; [|done]. by rewrite <- app_assoc.
- intros token Hb Hs. rewrite (RefreshUAAToken_granted w token Hb Hs). cbn [snd].
  rewrite RefreshUAAToken_calls by done. cbn [stored authCalls].
  by rewrite <- app_assoc.
- intros err Hb Hs. rewrite (RefreshUAAToken_refused w err Hb Hs). cbn [snd fst].
  rewrite (RefreshUAAToken_refused (called (uaaCall w) w) err) by done.
  cbn [snd fst called authCalls].
  split; [|done]. by rewrite <- app_assoc.
Qed.

Lemma refresh_token_rotation_witness :
  authCalls (snd (PluginContext.RefreshIAMToken
                    (snd (PluginContext.RefreshIAMToken (sampleWorld "0.1.1" rotatingService)))))
  = [Authentication.IAMRefresh "https://iam.example/identity/token" "iam-refresh-0";
     Authentication.IAMRefresh "https://iam.example/identity/token" "next-iam-refresh-0"].
Proof.
apply (proj1 (refresh_token_rotation (sampleWorld "0.1.1" rotatingService))
         (Authentication.mkToken "access-for-iam-refresh-0" "next-iam-refresh-0")).
- vm_compute. discriminate.
- reflexivity.
Defined.

Section IndependenceFacts.

Import CoreConfig Authentication.

Lemma RefreshIAMToken_unset (w : World) :
  iamBaseEndpoint w = EmptyString ->
  PluginContext.RefreshIAMToken w
  = ((EmptyString, Some (Errorf "IAM endpoint is not set")), w).
Proof. intros Hb. by rewrite RefreshIAMToken_unfold, Hb. Qed.

Lemma RefreshUAAToken_unset (w : World) :
  cfEndpoint w = EmptyString ->
  CF.RefreshUAAToken w
  = ((EmptyString, Some (Errorf "CloudFoundry API endpoint is not set")), w).
Proof.
intros Hc. rewrite RefreshUAAToken_unfold. unfold cfHasAPIEndpoint.
fold (cfEndpoint w). by rewrite Hc.
Qed.

(** The three ways [RefreshIAMToken] can go. *)
Lemma RefreshIAMToken_cases (w : World) :
  (iamBaseEndpoint w = EmptyString)
  \/ (iamBaseEndpoint w <> EmptyString
      /\ exists token : Token, authService w (iamCall w) = inl token)
  \/ (iamBaseEndpoint w <> EmptyString
      /\ exists err : Failure, authService w (iamCall w) = inr err).
Proof.
destruct (String.eqb_spec (iamBaseEndpoint w) EmptyString) as [Hb|Hb]; [by left|right].
destruct (authService w (iamCall w)) as [token|err]; [left|right]; eauto.
Qed.

Lemma RefreshUAAToken_cases (w : World) :
  (cfEndpoint w = EmptyString)
  \/ (cfEndpoint w <> EmptyString
      /\ exists token : Token, authService w (uaaCall w) = inl token)
  \/ (cfEndpoint w <> EmptyString
      /\ exists err : Failure, authService w (uaaCall w) = inr err).
Proof.
destruct (String.eqb_spec (cfEndpoint w) EmptyString) as [Hb|Hb]; [by left|right].
destruct (authService w (uaaCall w)) as [token|err]; [left|right]; eauto.
Qed.

End IndependenceFacts.

(** X13.  The two refresh operations do not interfere: what
    [RefreshUAAToken] returns after a [RefreshIAMToken] is what it returns
    without it, and the other way round, and the configuration after both
    is the same in either order. *)
Theorem refresh_operations_independent (w : World) :
  fst (CF.RefreshUAAToken (snd (PluginContext.RefreshIAMToken w)))
  = fst (CF.RefreshUAAToken w)
  /\ fst (PluginContext.RefreshIAMToken (snd (CF.RefreshUAAToken w)))
     = fst (PluginContext.RefreshIAMToken w)
  /\ config (snd (CF.RefreshUAAToken (snd (PluginContext.RefreshIAMToken w))))
     = config (snd (PluginContext.RefreshIAMToken (snd (CF.RefreshUAAToken w)))).
Proof.
destruct (RefreshIAMToken_cases w) as [Hb|[[Hb [ti Hi]]|[Hb [ei Hi]]]];
  destruct (RefreshUAAToken_cases w) as [Hc|[[Hc [tu Hu]]|[Hc [eu Hu]]]];
  first [rewrite (RefreshIAMToken_unset w Hb)
        |rewrite (RefreshIAMToken_granted w ti Hb Hi)
        |rewrite (RefreshIAMToken_refused w ei Hb Hi)];
  first [rewrite (RefreshUAAToken_unset w Hc)
        |rewrite (RefreshUAAToken_granted w tu Hc Hu)
        |rewrite (RefreshUAAToken_refused w eu Hc Hu)];
  cbn [snd];
  repeat match goal with
    | |- context [PluginContext.RefreshIAMToken ?W] =>
        first [rewrite (RefreshIAMToken_unset W Hb)
              |rewrite (RefreshIAMToken_granted W ti Hb Hi)
              |rewrite (RefreshIAMToken_refused W ei Hb Hi)]
    | |- context [CF.RefreshUAAToken ?W] =>
        first [rewrite (RefreshUAAToken_unset W Hc)
              |rewrite (RefreshUAAToken_granted W tu Hc Hu)
              |rewrite (RefreshUAAToken_refused W eu Hc Hu)]
    end;
  done.
Qed.

Section TrimFacts.

Import Strings.

Lemma prefix_nil (s : string) : String.prefix EmptyString s = true.
Proof. by destruct s. Qed.

Lemma prefix_cons (a b : ascii) (e s : string) :
  String.prefix (String a e) (String b s) = true <-> a = b /\ String.prefix e s = true.
Proof.
cbn [String.prefix]. destruct (ascii_dec a b) as [->|Hne]; [tauto|].
split; [done|]. by intros [? _].
Qed.

Lemma prefix_length (e s : string) :
  String.prefix e s = true -> (String.length e <= String.length s)%nat.
Proof.
revert e. induction s as [|b s IH]; intros [|a e]; cbn [String.length]; try done; try lia.
intros [_ H]%prefix_cons. apply IH in H. lia.
Qed.

Lemma prefix_sliceTo (e s : string) (k : nat) :
  String.prefix e (sliceTo k s) = true -> String.prefix e s = true.
Proof.
revert e k. induction s as [|b s IH]; intros e k.
- by destruct k.
- destruct k as [|k]; cbn [sliceTo].
  + destruct e; [by rewrite prefix_nil|done].
  + destruct e as [|a e]; [done|].
    rewrite !prefix_cons. intros [-> H]. split; [done|]. by apply (IH e k).
Qed.

Lemma sliceFrom_length (w : nat) (s : string) :
  String.length (sliceFrom w s) = (String.length s - w)%nat.
Proof.
revert s. induction w as [|w IH]; intros [|a s]; cbn [sliceFrom String.length]; done.
Qed.

Lemma sliceTo_length (k : nat) (s : string) :
  String.length (sliceTo k s) = Nat.min k (String.length s).
Proof.
revert s. induction k as [|k IH]; intros [|a s]; cbn [sliceTo String.length]; try done.
by rewrite IH.
Qed.

Lemma sliceTo_sliceTo (j k : nat) (s : string) :
  sliceTo j (sliceTo k s) = sliceTo (Nat.min j k) s.
Proof.
revert j k. induction s as [|a s IH]; intros [|j] [|k]; cbn [sliceTo Nat.min]; try done.
by rewrite IH.
Qed.

Lemma find_None_iff {A : Type} (f : A -> bool) (l : list A) :
  List.find f l = None <-> forall x : A, In x l -> f x = false.
Proof.
split; [apply find_none|].
induction l as [|x l IH]; cbn [List.find]; [done|].
intros H. rewrite (H x (or_introl eq_refl)). apply IH.
intros y Hy. apply H. by right.
Qed.

Lemma spaceEncodings_nonempty (e : string) :
  In e spaceEncodings -> (1 <= String.length e)%nat.
Proof.
assert (H : forallb (fun e => Nat.leb 1 (String.length e)) spaceEncodings = true)
  by (vm_compute; reflexivity).
rewrite forallb_forall in H. intros He. apply Nat.leb_le. by apply H.
Qed.

Lemma leadingSpace_bounds (s : string) (w : nat) :
  leadingSpace s = Some w -> (1 <= w <= String.length s)%nat.
Proof.
unfold leadingSpace.
destruct (List.find _ spaceEncodings) as [e|] eqn:He; [|done].
intros [= <-]. apply find_some in He as [Hin Hp].
split; [by apply spaceEncodings_nonempty|by apply prefix_length].
Qed.

Lemma leadingSpace_None (s : string) :
  leadingSpace s = None <-> forall e : string, In e spaceEncodings -> String.prefix e s = false.
Proof.
unfold leadingSpace. rewrite <- find_None_iff.
by destruct (List.find _ spaceEncodings).
Qed.

Lemma list_ascii_length (s : string) :
  length (list_ascii_of_string s) = String.length s.
Proof. induction s as [|a s IH]; cbn; [done|]. by rewrite IH. Qed.

Lemma string_of_list_length (l : list ascii) :
  String.length (string_of_list_ascii l) = length l.
Proof. induction l as [|a l IH]; cbn; [done|]. by rewrite IH. Qed.

Lemma reverse_length (s : string) : String.length (reverse s) = String.length s.
Proof.
unfold reverse. by rewrite string_of_list_length, length_rev, list_ascii_length.
Qed.

Lemma trailingSpace_bounds (s : string) (w : nat) :
  trailingSpace s = Some w -> (1 <= w <= String.length s)%nat.
Proof.
unfold trailingSpace.
destruct (List.find _ spaceEncodings) as [e|] eqn:He; [|done].
intros [= <-]. apply find_some in He as [Hin Hp].
split; [by apply spaceEncodings_nonempty|].
apply prefix_length in Hp. by rewrite !reverse_length in Hp.
Qed.

(** With room for every byte the loops stop at a string that has no
    white space left at the end they work on. *)
Lemma TrimLeft_loop_clean (fuel : nat) (s : string) :
  (String.length s <= fuel)%nat -> leadingSpace (TrimLeft_loop fuel s) = None.
Proof.
revert s. induction fuel as [|fuel IH]; intros s Hlen; cbn [TrimLeft_loop].
- destruct s; [by vm_compute|cbn [String.length] in Hlen; lia].
- destruct (leadingSpace s) as [w|] eqn:Hw; [|done].
  apply leadingSpace_bounds in Hw. apply IH. rewrite sliceFrom_length. lia.
Qed.

Lemma TrimRight_loop_clean (fuel : nat) (s : string) :
  (String.length s <= fuel)%nat -> trailingSpace (TrimRight_loop fuel s) = None.
Proof.
revert s. induction fuel as [|fuel IH]; intros s Hlen; cbn [TrimRight_loop].
- destruct s; [by vm_compute|cbn [String.length] in Hlen; lia].
- destruct (trailingSpace s) as [w|] eqn:Hw; [|done].
  apply trailingSpace_bounds in Hw. apply IH. rewrite sliceTo_length. unfold len. lia.
Qed.

Lemma TrimRight_loop_prefix (fuel : nat) (s : string) :
  exists k : nat, TrimRight_loop fuel s = sliceTo k s.
Proof.
revert s. induction fuel as [|fuel IH]; intros s; cbn [TrimRight_loop].
- exists (String.length s). clear. induction s as [|a s IH]; cbn; [done|]. by rewrite <- IH.
- destruct (trailingSpace s) as [w|].
  + destruct (IH (sliceTo (len s - w) s)) as [k ->]. rewrite sliceTo_sliceTo. eauto.
  + exists (String.length s). clear. induction s as [|a s IH]; cbn; [done|]. by rewrite <- IH.
Qed.

Lemma leadingSpace_sliceTo (s : string) (k : nat) :
  leadingSpace s = None -> leadingSpace (sliceTo k s) = None.
Proof.
rewrite !leadingSpace_None. intros H e He.
destruct (String.prefix e (sliceTo k s)) eqn:Hp; [|done].
apply prefix_sliceTo in Hp. by rewrite (H e He) in Hp.
Qed.

Lemma TrimSpace_isTrimmed (s : string) : isTrimmed (TrimSpace s) = true.
Proof.
unfold isTrimmed, TrimSpace.
set (t := TrimLeft_loop (len s) s).
assert (Ht : leadingSpace t = None) by (by apply TrimLeft_loop_clean).
destruct (TrimRight_loop_prefix (len t) t) as [k Hk].
assert (Hl : leadingSpace (TrimRight_loop (len t) t) = None)
  by (rewrite Hk; by apply leadingSpace_sliceTo).
assert (Hr : trailingSpace (TrimRight_loop (len t) t) = None)
  by (by apply TrimRight_loop_clean).
by rewrite Hl, Hr.
Qed.

Lemma isTrimmed_ends (s : string) :
  isTrimmed s = true <-> leadingSpace s = None /\ trailingSpace s = None.
Proof.
unfold isTrimmed. destruct (leadingSpace s), (trailingSpace s); split; try done;
  by intros [? ?].
Qed.

Lemma TrimSpace_fixed (s : string) : isTrimmed s = true -> TrimSpace s = s.
Proof.
intros [Hl Hr]%isTrimmed_ends. unfold TrimSpace.
assert (H1 : TrimLeft_loop (len s) s = s).
{ destruct (len s); cbn [TrimLeft_loop]; [done|]. by rewrite Hl. }
rewrite H1. destruct (len s); cbn [TrimRight_loop]; [done|]. by rewrite Hr.
Qed.

End TrimFacts.

Section JoinFacts.

Import Strings.

(** A white space rune does not reach over a space that follows other
    bytes: after its first byte no encoding has the byte of the space. *)
Lemma prefix_before_space (t x r : string) :
  lacks " " t = true ->
  String.prefix t (x +:+ String " " r) = true -> String.prefix t x = true.
Proof.
unfold lacks. revert x. induction t as [|a t IH]; intros x Ht; [by rewrite !prefix_nil|].
apply Nat.eqb_eq, Count_cons_zero in Ht as [Ha Ht].
destruct x as [|b x]; rewrite ?append_nil, ?append_cons, !prefix_cons.
- intros [-> _]. by rewrite Ascii.eqb_refl in Ha.
- intros [-> H]. split; [done|]. apply IH; [by apply Nat.eqb_eq|done].
Qed.

Lemma prefix_app_space (e x r : string) :
  x <> EmptyString -> tailLacksSpace e = true ->
  String.prefix e (x +:+ String " " r) = true -> String.prefix e x = true.
Proof.
intros Hx He. destruct e as [|a t]; [by rewrite !prefix_nil|].
destruct x as [|b x]; [done|]. rewrite append_cons, !prefix_cons.
intros [-> H]. split; [done|]. by apply (prefix_before_space t x r).
Qed.

Lemma leadingSpace_app_space (x r : string) :
  x <> EmptyString -> leadingSpace x = None ->
  leadingSpace (x +:+ String " " r) = None.
Proof.
rewrite !leadingSpace_None. intros Hx H e He.
assert (Htail : forallb tailLacksSpace spaceEncodings = true) by (vm_compute; reflexivity).
rewrite forallb_forall in Htail.
destruct (String.prefix e (x +:+ String " " r)) eqn:Hp; [|done].
apply (prefix_app_space e x r Hx (Htail e He)) in Hp. by rewrite (H e He) in Hp.
Qed.

Lemma list_ascii_app (a b : string) :
  list_ascii_of_string (a +:+ b) = list_ascii_of_string a ++ list_ascii_of_string b.
Proof.
induction a as [|x a IH]; rewrite ?append_nil, ?append_cons; cbn; [done|]. by rewrite IH.
Qed.

Lemma string_of_list_app (x y : list ascii) :
  string_of_list_ascii (x ++ y) = string_of_list_ascii x +:+ string_of_list_ascii y.
Proof.
induction x as [|a x IH]; cbn [app string_of_list_ascii];
  rewrite ?append_nil, ?append_cons; [done|]. by rewrite IH.
Qed.

Lemma reverse_app_space (x r : string) :
  reverse (x +:+ String " " r) = reverse r +:+ String " " (reverse x).
Proof.
unfold reverse. rewrite list_ascii_app. cbn [list_ascii_of_string].
rewrite rev_app_distr. cbn [rev]. rewrite <- app_assoc. cbn [app].
by rewrite string_of_list_app.
Qed.

Lemma reverse_nonempty (s : string) : s <> EmptyString -> reverse s <> EmptyString.
Proof.
intros Hs Hr. apply (f_equal String.length) in Hr. rewrite reverse_length in Hr.
destruct s; [done|]. cbn in Hr. lia.
Qed.

Lemma trailingSpace_None (s : string) :
  trailingSpace s = None
  <-> forall e : string,
        In e spaceEncodings -> String.prefix (reverse e) (reverse s) = false.
Proof.
unfold trailingSpace. rewrite <- find_None_iff.
by destruct (List.find _ spaceEncodings).
Qed.

Lemma trailingSpace_app_space (x r : string) :
  r <> EmptyString -> trailingSpace r = None ->
  trailingSpace (x +:+ String " " r) = None.
Proof.
rewrite !trailingSpace_None. intros Hr H e He.
assert (Htail : forallb (fun e => tailLacksSpace (reverse e)) spaceEncodings = true)
  by (vm_compute; reflexivity).
rewrite forallb_forall in Htail.
rewrite reverse_app_space.
destruct (String.prefix (reverse e) (reverse r +:+ String " " (reverse x))) eqn:Hp; [|done].
apply (prefix_app_space _ _ _ (reverse_nonempty r Hr) (Htail e He)) in Hp.
by rewrite (H e He) in Hp.
Qed.

(** Two trimmed, non-empty parts joined by a space are trimmed. *)
Lemma isTrimmed_join (x r : string) :
  x <> EmptyString -> r <> EmptyString ->
  isTrimmed x = true -> isTrimmed r = true ->
  isTrimmed (x +:+ " " +:+ r) = true.
Proof.
intros Hx Hr [Hxl _]%isTrimmed_ends [_ Hrr]%isTrimmed_ends.
change (" " +:+ r) with (String " " r). apply isTrimmed_ends. split.
- by apply leadingSpace_app_space.
- by apply trailingSpace_app_space.
Qed.

Lemma TrimSpace_space_trimmed (r : string) :
  isTrimmed r = true -> TrimSpace (String " " r) = r.
Proof.
intros Hr. pose proof Hr as [Hl Htr]%isTrimmed_ends. unfold TrimSpace, len.
cbn [String.length TrimLeft_loop].
assert (Hsp : leadingSpace (String " " r) = Some 1%nat).
{ unfold leadingSpace.
  assert (Hf : List.find (fun e => String.prefix e (String " " r)) spaceEncodings
               = Some (bytes [32])).
  { set (l := spaceEncodings). vm_compute in l. subst l.
    cbn [List.find String.prefix].
    repeat match goal with
           | |- context [ascii_dec ?a ?b] =>
               destruct (ascii_dec a b) as [Heq|Hne]; [try discriminate Heq|try done]
           end.
    by rewrite prefix_nil. }
  by rewrite Hf. }
rewrite Hsp. cbn [sliceFrom].
assert (H1 : TrimLeft_loop (String.length r) r = r).
{ destruct (String.length r); cbn [TrimLeft_loop]; [done|]. by rewrite Hl. }
rewrite H1. destruct (String.length r); cbn [TrimRight_loop]; [done|]. by rewrite Htr.
Qed.

End JoinFacts.

(** X14.  No name that [FullName] or [FullNames] returns starts or ends
    with a white space rune, whatever the namespace, name and alias are;
    trimming a full name again changes nothing. *)
Theorem FullNames_trimmed (c : Metadata.Command) :
  isTrimmed (Metadata.FullName c) = true
  /\ Forall (fun n => isTrimmed n = true) (Metadata.FullNames c)
  /\ Strings.TrimSpace (Metadata.FullName c) = Metadata.FullName c.
Proof.
assert (Hn : isTrimmed (Metadata.FullName c) = true) by apply TrimSpace_isTrimmed.
split; [exact Hn|]. split; [|by apply TrimSpace_fixed].
unfold Metadata.FullNames.
destruct (negb (String.eqb (Metadata.Alias c) EmptyString)).
- apply Forall_app. split; apply Forall_singleton; [exact Hn|apply TrimSpace_isTrimmed].
- by apply Forall_singleton.
Qed.

(** X15.  When the name of a command is trimmed, its full name is the
    name itself if the namespace is empty, and the namespace, one space
    and the name if the namespace is trimmed and neither is empty: the
    trimming only removes the space that joining with an empty namespace
    leaves in front. *)
Theorem FullName_of_trimmed_parts (c : Metadata.Command) :
  isTrimmed (Metadata.Name c) = true ->
  (Metadata.Namespace_ c = EmptyString -> Metadata.FullName c = Metadata.Name c)
  /\ (Metadata.Namespace_ c <> EmptyString -> Metadata.Name c <> EmptyString ->
      isTrimmed (Metadata.Namespace_ c) = true ->
      Metadata.FullName c = Metadata.Namespace_ c +:+ " " +:+ Metadata.Name c).
Proof.
intros Hname. unfold Metadata.FullName.
change (Strings.Join [Metadata.Namespace_ c; Metadata.Name c] " ")
  with (Metadata.Namespace_ c +:+ " " +:+ Metadata.Name c).
split.
- intros ->. change (EmptyString +:+ " " +:+ Metadata.Name c)
    with (String " " (Metadata.Name c)).
  by apply TrimSpace_space_trimmed.
- intros Hns Hn Htrim. apply TrimSpace_fixed. by apply isTrimmed_join.
Qed.

Lemma FullName_of_trimmed_parts_witness :
  Metadata.FullName (Metadata.mkCommand "" "login" "" "" "" [] false) = "login"
  /\ Metadata.FullName (Metadata.mkCommand "resource group" "create" "" "" "" [] false)
     = "resource group" +:+ " " +:+ "create".
Proof.
split.
- apply (proj1 (FullName_of_trimmed_parts
                  (Metadata.mkCommand "" "login" "" "" "" [] false) eq_refl)).
  reflexivity.
- apply (proj2 (FullName_of_trimmed_parts
                  (Metadata.mkCommand "resource group" "create" "" "" "" [] false) eq_refl)).
  + discriminate.
  + discriminate.
  + vm_compute. reflexivity.
Defined.

(** X16.  The version gate of [APIEndpoint] is monotone in the SDK
    version: a plugin whose version is not above that of a plugin served
    the CF-scoped endpoint is served the CF-scoped endpoint too, and a
    plugin whose version is not below that of a plugin served the
    platform endpoint is served the platform endpoint too. *)
Theorem APIEndpoint_gate_monotone (w w' : World) :
  (compareVersion (CoreConfig.rwSDKVersion (config w)) (CoreConfig.rwSDKVersion (config w')) <= 0 ->
   compareVersion (CoreConfig.rwSDKVersion (config w')) "0.1.1" < 0 ->
   fst (PluginContext.APIEndpoint w) = cfEndpoint w)
  /\ (compareVersion (CoreConfig.rwSDKVersion (config w')) (CoreConfig.rwSDKVersion (config w)) <= 0 ->
      0 <= compareVersion (CoreConfig.rwSDKVersion (config w')) "0.1.1" ->
      fst (PluginContext.APIEndpoint w) = platformEndpoint w).
Proof.
rewrite APIEndpoint_unfold. cbn [fst].
set (v := CoreConfig.rwSDKVersion (config w)).
set (v' := CoreConfig.rwSDKVersion (config w')).
split.
- intros Hle Hlt.
  destruct (compareVersion_trans_le v v' "0.1.1" Hle ltac:(lia)) as [_ Hs].
  specialize (Hs (or_intror Hlt)).
  destruct (Z.ltb_spec (compareVersion v "0.1.1") 0); [done|lia].
- intros Hle Hge.
  destruct (Z.ltb_spec (compareVersion v "0.1.1") 0) as [Hlt|]; [|done].
  destruct (compareVersion_trans_le v' v "0.1.1" Hle ltac:(lia)) as [_ Hs].
  specialize (Hs (or_intror Hlt)). lia.
Qed.

Lemma APIEndpoint_gate_monotone_witness :
  fst (PluginContext.APIEndpoint (sampleWorld "0.0.9" refusingService))
  = "https://api.cf.example"
  /\ fst (PluginContext.APIEndpoint (sampleWorld "0.3" refusingService))
     = "https://cloud.example".
Proof.
split.
- apply (proj1 (APIEndpoint_gate_monotone (sampleWorld "0.0.9" refusingService)
                  (sampleWorld "0.1.0" refusingService))); vm_compute; (discriminate || reflexivity).
- apply (proj2 (APIEndpoint_gate_monotone (sampleWorld "0.3" refusingService)
                  (sampleWorld "0.1.1" refusingService))); vm_compute; discriminate.
Defined.

(** * What [TrimSpace] takes away *)

Section TrimSplit.

Import Strings.

Lemma prefix_split (e s : string) :
  String.prefix e s = true -> s = e +:+ sliceFrom (String.length e) s.
Proof.
revert e. induction s as [|b s IH]; intros [|a e]; try done.
rewrite prefix_cons. intros [-> H]. rewrite append_cons. cbn [String.length sliceFrom].
by rewrite <- (IH e H).
Qed.

Lemma reverse_involutive (s : string) : reverse (reverse s) = s.
Proof.
unfold reverse.
by rewrite list_ascii_of_string_of_list_ascii, rev_involutive,
  string_of_list_ascii_of_string.
Qed.

Lemma reverse_app (a b : string) : reverse (a +:+ b) = reverse b +:+ reverse a.
Proof.
unfold reverse. by rewrite list_ascii_app, rev_app_distr, string_of_list_app.
Qed.

(** A string that ends with [e] is what comes before, and [e]. *)
Lemma suffix_split (e s : string) :
  String.prefix (reverse e) (reverse s) = true ->
  s = sliceTo (String.length s - String.length e) s +:+ e.
Proof.
intros H%prefix_split.
set (y := sliceFrom (String.length (reverse e)) (reverse s)) in H.
assert (Hs : s = reverse y +:+ e).
{ rewrite <- (reverse_involutive s), H, reverse_app. by rewrite reverse_involutive. }
assert (Hlen : (String.length s - String.length e)%nat = String.length (reverse y)).
{ rewrite Hs at 1. rewrite length_append. lia. }
rewrite Hlen. rewrite Hs at 2. by rewrite sliceTo_app.
Qed.

Lemma whiteSpace_single (e : string) : In e spaceEncodings -> whiteSpace e.
Proof.
intros He. rewrite <- (append_empty_r e). apply whiteSpace_cons; [done|constructor].
Qed.

Lemma whiteSpace_app (a b : string) :
  whiteSpace a -> whiteSpace b -> whiteSpace (a +:+ b).
Proof.
induction 1 as [|e a He Ha IH]; intros Hb; [done|].
rewrite append_assoc. apply whiteSpace_cons; [done|by apply IH].
Qed.

Lemma leadingSpace_Some (s : string) (w : nat) :
  leadingSpace s = Some w ->
  exists e : string, In e spaceEncodings /\ w = String.length e /\ String.prefix e s = true.
Proof.
unfold leadingSpace.
destruct (List.find _ spaceEncodings) as [e|] eqn:He; [|done].
intros [= <-]. apply find_some in He as [Hin Hp]. eauto.
Qed.

Lemma trailingSpace_Some (s : string) (w : nat) :
  trailingSpace s = Some w ->
  exists e : string,
    In e spaceEncodings /\ w = String.length e
    /\ String.prefix (reverse e) (reverse s) = true.
Proof.
unfold trailingSpace.
destruct (List.find _ spaceEncodings) as [e|] eqn:He; [|done].
intros [= <-]. apply find_some in He as [Hin Hp]. eauto.
Qed.

(** What the loops cut off is white space. *)
Lemma TrimLeft_loop_split (fuel : nat) (s : string) :
  exists l : string, s = l +:+ TrimLeft_loop fuel s /\ whiteSpace l.
Proof.
revert s. induction fuel as [|fuel IH]; intros s; cbn [TrimLeft_loop].
- exists EmptyString. split; [done|constructor].
- destruct (leadingSpace s) as [w|] eqn:Hw.
  + apply leadingSpace_Some in Hw as (e & He & -> & Hp).
    destruct (IH (sliceFrom (String.length e) s)) as (l & Hl & Hwl).
    exists (e +:+ l). split; [|by apply whiteSpace_cons].
    rewrite append_assoc, <- Hl. by apply prefix_split.
  + exists EmptyString. split; [done|constructor].
Qed.

Lemma TrimRight_loop_split (fuel : nat) (s : string) :
  exists r : string, s = TrimRight_loop fuel s +:+ r /\ whiteSpace r.
Proof.
revert s. induction fuel as [|fuel IH]; intros s; cbn [TrimRight_loop].
- exists EmptyString. split; [by rewrite append_empty_r|constructor].
- destruct (trailingSpace s) as [w|] eqn:Hw.
  + apply trailingSpace_Some in Hw as (e & He & -> & Hp).
    destruct (IH (sliceTo (len s - String.length e) s)) as (r & Hr & Hwr).
    exists (r +:+ e). split.
    * rewrite <- append_assoc, <- Hr. by apply suffix_split.
    * apply whiteSpace_app; [done|by apply whiteSpace_single].
  + exists EmptyString. split; [by rewrite append_empty_r|constructor].
Qed.

(** [TrimSpace s] is [s] with the surrounding white space trimmed. *)
Lemma TrimSpace_trimOf (s : string) : trimOf s (TrimSpace s).
Proof.
split; [apply TrimSpace_isTrimmed|].
unfold TrimSpace.
destruct (TrimLeft_loop_split (len s) s) as (l & Hl & Hwl).
set (t := TrimLeft_loop (len s) s) in *.
destruct (TrimRight_loop_split (len t) t) as (r & Hr & Hwr).
exists l, r. split; [|done]. by rewrite <- Hr.
Qed.

End TrimSplit.

(** * The full names of a command *)

(** C10.  For every command, [FullName] is the namespace, a space and the
    name, with the surrounding white space trimmed: the joined string is
    white space, the full name, white space, and the full name neither
    starts nor ends with a white space rune.  [FullNames] is [[FullName]]
    when the alias is empty and [[FullName; alias name]] otherwise, the
    alias name being the namespace, a space and the alias, trimmed in the
    same way.  Namespace "service plan" and name "create" give
    "service plan create"; the empty namespace and name "login" give
    "login", and with alias "l" the names ["login"; "l"]; white space
    around the parts (spaces, a tab, a no-break space) is removed at both
    ends and kept inside. *)
Theorem Command_FullNames (c : Metadata.Command) :
  Metadata.FullName c
  = Strings.TrimSpace (Metadata.Namespace_ c +:+ " " +:+ Metadata.Name c)
  /\ trimOf (Metadata.Namespace_ c +:+ " " +:+ Metadata.Name c) (Metadata.FullName c)
  /\ Metadata.FullNames c
     = (if String.eqb (Metadata.Alias c) EmptyString
        then [Metadata.FullName c]
        else [Metadata.FullName c;
              Strings.TrimSpace (Metadata.Namespace_ c +:+ " " +:+ Metadata.Alias c)])
  /\ (Metadata.Alias c = EmptyString -> Metadata.FullNames c = [Metadata.FullName c])
  /\ (Metadata.Alias c <> EmptyString ->
      exists aliasName : string,
        Metadata.FullNames c = [Metadata.FullName c; aliasName]
        /\ trimOf (Metadata.Namespace_ c +:+ " " +:+ Metadata.Alias c) aliasName)
  /\ Metadata.FullName (Metadata.mkCommand "service plan" "create" "" "" "" [] false)
     = "service plan create"
  /\ Metadata.FullName (Metadata.mkCommand "" "login" "" "" "" [] false) = "login"
  /\ Metadata.FullNames (Metadata.mkCommand "" "login" "l" "" "" [] false) = ["login"; "l"]
  /\ Metadata.FullNames (Metadata.mkCommand "" "login" "" "" "" [] false) = ["login"]
  /\ Metadata.FullName (Metadata.mkCommand "  service plan" "create  " "" "" "" [] false)
     = "service plan create"
  /\ Metadata.FullName
       (Metadata.mkCommand "ns" ("name " +:+ Strings.bytes [9; 194; 160]) "" "" "" [] false)
     = "ns name"
  /\ Metadata.FullNames (Metadata.mkCommand "" "login  " "l " "" "" [] false)
     = ["login"; "l"]
  /\ Metadata.FullName (Metadata.mkCommand "" "" "" "" "" [] false) = EmptyString.
Proof.
split; [reflexivity|].
split; [apply TrimSpace_trimOf|].
assert (Hnames : Metadata.FullNames c
                 = (if String.eqb (Metadata.Alias c) EmptyString
                    then [Metadata.FullName c]
                    else [Metadata.FullName c;
                          Strings.TrimSpace
                            (Metadata.Namespace_ c +:+ " " +:+ Metadata.Alias c)])).
{ unfold Metadata.FullNames. by destruct (String.eqb (Metadata.Alias c) EmptyString). }
split; [exact Hnames|].
split.
{ intros Ha. by rewrite Hnames, Ha. }
split.
{ intros Ha%eqb_empty_false. rewrite Hnames, Ha.
  eexists. split; [reflexivity|]. apply TrimSpace_trimOf. }
repeat split; vm_compute; reflexivity.
Qed.

Lemma Command_FullNames_witness :
  Metadata.FullNames (Metadata.mkCommand "" "login" "" "" "" [] false) = ["login"]
  /\ exists aliasName : string,
       Metadata.FullNames (Metadata.mkCommand "service plan" "create " " c" "" "" [] false)
       = ["service plan create"; aliasName]
       /\ trimOf ("service plan" +:+ " " +:+ " c") aliasName.
Proof.
split.
- apply (proj1 (proj2 (proj2 (proj2
           (Command_FullNames (Metadata.mkCommand "" "login" "" "" "" [] false)))))).
  reflexivity.
- apply (proj1 (proj2 (proj2 (proj2 (proj2
           (Command_FullNames
              (Metadata.mkCommand "service plan" "create " " c" "" "" [] false))))))).
  discriminate.
Defined.
